(** * obspy.imaging.maps: map-extent, tick and colorbar heuristics

    A shallow embedding of [obspy/imaging/maps.py].  The module is a thin
    layer over matplotlib, basemap and cartopy; what is embedded here is
    the logic the module itself owns:

    - the colour-axis normalisation and the colorbar decision at the top
      of [plot_basemap] and [plot_cartopy];
    - the centre / footprint / aspect computation of the ['local']
      projection in both renderers;
    - the nested helper [linspace2];
    - the projection and method dispatch with its [ValueError]s.

    Number model.  Python floats are embedded as exact rationals ([Q]):
    a decimal literal such as [0.2] or [1.2] is read as the decimal it
    denotes and no operation rounds.  Every intermediate value of the
    concrete runs evaluated below ([linspace2(0, 100, 8)] and
    [lons = [-179, 179]]) is a small dyadic number, so at those inputs
    the rational run and the binary64 run coincide.

    Exceptions are values of an error monad.  Calls into numpy and
    matplotlib are either modelled from the libraries' documentation
    ([np.linspace], [np.floor], [np.ceil]) or taken as section variables
    ([np.pi], [np.cos], [date2num], the figure size). *)

From Stdlib Require Import ZArith QArith Qround Qpower List String Bool Lia Lqa.
From Stdlib Require Import Sorted.
Import ListNotations.

Local Open Scope Q_scope.

(** ** Exceptions and the error monad *)

Inductive exn : Type :=
| ValueError (msg : string)
| ZeroDivisionError
| TypeError
| AttributeError
| IndexError
| OverflowError.

Inductive result (A : Type) : Type :=
| OK (a : A)
| Raise (e : exn).

Arguments OK {A} a.
Arguments Raise {A} e.

Definition bind {A B : Type} (m : result A) (k : A -> result B) : result B :=
  match m with
  | OK a => k a
  | Raise e => Raise e
  end.

Notation "'do' x <- m ; k" := (bind m (fun x => k))
  (at level 10, x name, m at level 100, k at level 200).

Fixpoint mapM {A B : Type} (f : A -> result B) (l : list A) : result (list B) :=
  match l with
  | [] => OK []
  | a :: l' => do b <- f a; do bs <- mapM f l'; OK (b :: bs)
  end.

(** ** Python and numpy arithmetic on exact rationals *)

Module Py.

Definition Qltb (a b : Q) : bool := negb (Qle_bool b a).

(** [a / b] on floats: a zero divisor raises. *)
Definition div (a b : Q) : result Q :=
  if Qeq_bool b 0 then Raise ZeroDivisionError else OK (a / b).

(** [a % 360] (numpy and Python agree: the result has the sign of the
    divisor). *)
Definition mod360 (a : Q) : Q := a - inject_Z (Qfloor (a / 360)) * 360.

(** [min(seq)] / [max(seq)]: the first extremal element; an empty
    sequence raises [ValueError]. *)
Fixpoint min_from (m : Q) (l : list Q) : Q :=
  match l with
  | [] => m
  | x :: l' => min_from (if Qltb x m then x else m) l'
  end.

Fixpoint max_from (m : Q) (l : list Q) : Q :=
  match l with
  | [] => m
  | x :: l' => max_from (if Qltb m x then x else m) l'
  end.

Definition min (l : list Q) : result Q :=
  match l with
  | [] => Raise (ValueError "min() arg is an empty sequence")
  | x :: l' => OK (min_from x l')
  end.

Definition max (l : list Q) : result Q :=
  match l with
  | [] => Raise (ValueError "max() arg is an empty sequence")
  | x :: l' => OK (max_from x l')
  end.

(** [round(x)] with one argument, as [future.builtins] and Python 3
    define it: to the nearest integer, ties to the even one. *)
Definition round (x : Q) : Z :=
  let f := Qfloor x in
  let r := x - inject_Z f in
  match Qcompare r (1 # 2) with
  | Lt => f
  | Gt => (f + 1)%Z
  | Eq => if Z.even f then f else (f + 1)%Z
  end.

(** [round(x, ndigits)] for [ndigits >= 0]. *)
Definition round_to (x : Q) (ndigits : Z) : Q :=
  let p := inject_Z (10 ^ ndigits) in
  inject_Z (round (x * p)) / p.

(** [floor(log10 n)] for an integer [n >= 1]: one less than the number
    of decimal digits (the binary logarithm bounds the number of
    divisions by ten). *)
Fixpoint ilog10_aux (fuel : nat) (n : Z) : Z :=
  match fuel with
  | O => 0%Z
  | S fuel' => if (n <? 10)%Z then 0%Z else (1 + ilog10_aux fuel' (n / 10))%Z
  end.

Definition ilog10 (n : Z) : Z := ilog10_aux (S (Z.to_nat (Z.log2 n))) n.

(** [floor(log10 y)] for a positive rational: the integer [m] with
    [10^m <= y < 10^(m+1)]. *)
Definition floor_log10 (y : Q) : Z :=
  let e := (ilog10 (Qnum y) - ilog10 (Zpos (Qden y)))%Z in
  if Qle_bool (Qpower 10 e) y then e else (e - 1)%Z.

(** [int(round(-np.log10(x)))] for a positive rational [x].  The value
    is the integer [k] with [10^(-k-1/2) < x < 10^(-k+1/2)]; no rational
    lies on a boundary, so no tie arises.  With [m = floor(log10(x^2))]
    this is [k = -((m+1) div 2)].  A non-positive [x] has no logarithm:
    [np.log10] gives an infinity at zero and nan below, and [int] of
    either raises. *)
Definition round_neg_log10 (x : Q) : result Z :=
  if Qeq_bool x 0 then Raise OverflowError
  else if Qle_bool x 0 then
    Raise (ValueError "cannot convert float NaN to integer")
  else OK (- ((floor_log10 (x * x) + 1) / 2))%Z.

End Py.

Module Np.

Definition floor (x : Q) : Q := inject_Z (Qfloor x).
Definition ceil (x : Q) : Q := inject_Z (Qceiling x).

(** [int(x)]: truncation towards zero. *)
Definition trunc (x : Q) : Z := Z.quot (Qnum x) (Zpos (Qden x)).

(** [np.linspace(start, stop, num)] with the default [endpoint=True]:
    [num] is truncated to an integer; no samples for [num <= 0], the
    start alone for [num = 1], otherwise [start + i * step] for
    [i = 0 .. num-1] with [step = (stop - start) / (num - 1)]. *)
Definition linspace (start stop num : Q) : list Q :=
  let n := trunc num in
  if (n <=? 0)%Z then []
  else if (n =? 1)%Z then [start]
  else
    let step := (stop - start) / inject_Z (n - 1) in
    map (fun i => inject_Z (Z.of_nat i) * step + start) (seq 0 (Z.to_nat n)).

End Np.

(** ** [linspace2] (nested in both renderers, lines 234-249 and 537-552) *)

Definition linspace2_delta (val1 val2 : Q) (N : Z) : result Q :=
  let dval := val2 - val1 in
  do q <- Py.div (1 * dval) (inject_Z N);
  do round_pos <- Py.round_neg_log10 q;
  if (round_pos <? 0)%Z then
    let factor := inject_Z (10 ^ Z.abs round_pos) in
    OK (inject_Z (Py.round (2 * dval / inject_Z N / factor)) * factor / 2)
  else
    OK (Py.round_to (2 * dval / inject_Z N) round_pos / 2).

Definition linspace2 (val1 val2 : Q) (N : Z) : result (list Q) :=
  do delta <- linspace2_delta val1 val2 N;
  do q1 <- Py.div val1 delta;
  let new_val1 := Np.ceil q1 * delta in
  do q2 <- Py.div val2 delta;
  let new_val2 := Np.floor q2 * delta in
  do q3 <- Py.div (new_val2 - new_val1) delta;
  let N' := q3 + 1 in
  OK (Np.linspace new_val1 new_val2 N').

(** ** Colour values and the colour argument *)

(** A colour value is a number or a timestamp ([datetime.datetime] /
    [UTCDateTime], here microseconds since the epoch); the items of a
    string are its characters. *)
Inductive colorval : Type :=
| Num (x : Q)
| Stamp (t : Z)
| Chr (c : Ascii.ascii).

(** The [color] argument: a list/tuple, a string, or a bare scalar. *)
Inductive color_arg : Type :=
| CSeq (l : list colorval)
| CStr (s : string)
| CScalar (x : Q).

Definition is_stamp (c : colorval) : bool :=
  match c with Stamp _ => true | _ => false end.

Fixpoint chars (s : string) : list colorval :=
  match s with
  | EmptyString => []
  | String c s' => Chr c :: chars s'
  end.

(** Iterating the argument; a scalar is not iterable. *)
Definition items (color : color_arg) : result (list colorval) :=
  match color with
  | CSeq l => OK l
  | CStr s => OK (chars s)
  | CScalar _ => Raise TypeError
  end.

(** [hasattr(color, "__len__")] and [isinstance(color, (str, native_str))]. *)
Definition has_len (color : color_arg) : bool :=
  match color with CScalar _ => false | _ => true end.

Definition is_str (color : color_arg) : bool :=
  match color with CStr _ => true | _ => false end.

(** [a < b] on colour values; as for [datetime], ordering values of
    different kinds raises [TypeError]. *)
Definition cv_lt (a b : colorval) : result bool :=
  match a, b with
  | Num x, Num y => OK (Py.Qltb x y)
  | Stamp s, Stamp t => OK (s <? t)%Z
  | Chr c, Chr d => OK (Ascii.nat_of_ascii c <? Ascii.nat_of_ascii d)%nat
  | _, _ => Raise TypeError
  end.

Fixpoint cv_min_from (m : colorval) (l : list colorval) : result colorval :=
  match l with
  | [] => OK m
  | x :: l' => do b <- cv_lt x m; cv_min_from (if b then x else m) l'
  end.

Fixpoint cv_max_from (m : colorval) (l : list colorval) : result colorval :=
  match l with
  | [] => OK m
  | x :: l' => do b <- cv_lt m x; cv_max_from (if b then x else m) l'
  end.

Definition cv_min (l : list colorval) : result colorval :=
  match l with
  | [] => Raise (ValueError "min() arg is an empty sequence")
  | x :: l' => cv_min_from x l'
  end.

Definition cv_max (l : list colorval) : result colorval :=
  match l with
  | [] => Raise (ValueError "max() arg is an empty sequence")
  | x :: l' => cv_max_from x l'
  end.

(** ** Projection argument and renderer outputs *)

(** [projection]: a string, or a class (kept by its [str()]). *)
Inductive proj_arg : Type :=
| PStr (s : string)
| PType (repr : string).

Definition proj_repr (p : proj_arg) : string :=
  match p with PStr s => s | PType r => r end.

Definition proj_is (p : proj_arg) (name : string) : bool :=
  match p with PStr s => String.eqb s name | PType _ => false end.

Record local_params : Type := mkLocal {
  lat_0 : Q;
  lon_0 : Q;
  width : Q;
  height : Q
}.

(** The projection a renderer builds; the centre of ['ortho'] is
    [np.mean] of the coordinates and is left to numpy. *)
Inductive projection_built : Type :=
| Cyl
| Ortho
| Local (p : local_params)
| UserClass.

(** What the renderer hands to the plotting library: the arguments of
    [Normalize], the date-formatter flag, the colorbar decision, the
    projection that was built, the argument of [set_extent] if it is
    called, and the [c] argument of [scatter]. *)
Record plan : Type := mkPlan {
  norm : colorval * colorval;
  datetimeplot : bool;
  show_colorbar : bool;
  proj : projection_built;
  extent : option (Q * Q * Q * Q);
  scatter_c : color_arg
}.

Definition projection_msg (repr : string) : string :=
  ("Projection '" ++ repr ++ "' not supported.")%string.

Definition method_msg (method : string) : string :=
  ("The method argument must be either 'basemap' or 'cartopy', not '"
     ++ method ++ "'.")%string.

(** [min(lons) < -150 and max(lons) > 150] (short-circuit [and]). *)
Definition straddles (lons : list Q) : result bool :=
  do mn <- Py.min lons;
  if Py.Qltb mn (-150) then
    do mx <- Py.max lons; OK (Py.Qltb 150 mx)
  else OK false.

(** Lines 196-205 of [plot_basemap] and 449-458 of [plot_cartopy]
    (the same text): the longitude bounds and the centre. *)
Definition lon_bounds (lons : list Q) : result (Q * Q) :=
  do s <- straddles lons;
  if s then
    do max_lons <- Py.max (map Py.mod360 lons);
    do min_lons <- Py.min (map Py.mod360 lons);
    OK (max_lons, min_lons)
  else
    do max_lons <- Py.max lons;
    do min_lons <- Py.min lons;
    OK (max_lons, min_lons).

Definition wrap180 (lon : Q) : Q :=
  if Py.Qltb 180 lon then lon - 360 else lon.

(** The centre, with the longitude bounds it was taken from:
    [(lat_0, lon_0, max_lons, min_lons)]. *)
Definition local_center (lons lats : list Q) : result (Q * Q * Q * Q) :=
  do b <- lon_bounds lons;
  let '(max_lons, min_lons) := b in
  do mxlat <- Py.max lats;
  do mnlat <- Py.min lats;
  let lat0 := mxlat / 2 + mnlat / 2 in
  let lon0 := max_lons / 2 + min_lons / 2 in
  OK (lat0, wrap180 lon0, max_lons, min_lons).

(** ** Colorbar decision (lines 163-170 and 427-434) *)

Definition decide_colorbar (colorbar : option bool) (lons : list Q)
    (color : color_arg) : bool :=
  match colorbar with
  | Some b => b
  | None =>
      if (1 <? List.length lons)%nat && has_len color && negb (is_str color)
      then true else false
  end.

Section Renderers.

(** [matplotlib.dates.date2num] on a timestamp. *)
Variable date2num : Z -> Q.
(** [np.pi] and [np.cos]. *)
Variable np_pi : Q.
Variable np_cos : Q -> Q.
(** [w, h = fig.get_size_inches()]. *)
Variables fig_w fig_h : Q.

(** [date2num(t)] inside the list comprehension: only a timestamp has
    the attributes it reads. *)
Definition date2num_item (c : colorval) : result colorval :=
  match c with
  | Stamp t => OK (Num (date2num t))
  | _ => Raise AttributeError
  end.

(** Lines 149-153 / 413-417: the test on [color[0]] and the
    conversion. *)
Definition convert_color (color : color_arg) : result (bool * color_arg) :=
  do l <- items color;
  match l with
  | [] => Raise IndexError
  | c0 :: _ =>
      if is_stamp c0 then
        do l' <- mapM date2num_item l; OK (true, CSeq l')
      else OK (false, color)
  end.

(** Lines 146-157 / 410-421. *)
Definition color_axis (color : color_arg)
  : result (colorval * colorval * bool * color_arg) :=
  do l <- items color;
  do min_color <- cv_min l;
  do max_color <- cv_max l;
  do fc <- convert_color color;
  let '(flag, color') := fc in
  OK (min_color, max_color, flag, color').

(** [aspect = w / h], times 1.2 under a colorbar. *)
Definition aspect (show : bool) : Q :=
  let a := fig_w / fig_h in
  if show then a * (12 # 10) else a.

(** *** [plot_cartopy], ['local'] (lines 448-477) *)

(** Lines 459-467: [(width, height)] before the aspect adjustment. *)
Definition cartopy_footprint (lats : list Q) (max_lons min_lons : Q)
  : result (Q * Q) :=
  if (1 <? List.length lats)%nat then
    do mx <- Py.max lats;
    do mn <- Py.min lats;
    let height := mx - mn in
    let width := max_lons - min_lons in
    let margin := (2 # 10) * (width + height) in
    OK (width + margin, height + margin)
  else OK (5, 2).

(** Lines 474-477; [width] and [height] are Python floats here, so a
    zero [height] raises. *)
Definition cartopy_adjust (wh : Q * Q) (a : Q) : result (Q * Q) :=
  let '(width, height) := wh in
  do r <- Py.div width height;
  if Py.Qltb r a then OK (height * a, height)
  else OK (width, width / a).

Definition cartopy_local (lons lats : list Q) (show : bool)
  : result local_params :=
  do c <- local_center lons lats;
  let '(lat0, lon0, max_lons, min_lons) := c in
  do wh <- cartopy_footprint lats max_lons min_lons;
  do wh' <- cartopy_adjust wh (aspect show);
  OK (mkLocal lat0 lon0 (fst wh') (snd wh')).

(** Lines 517-519: the argument of [set_extent]. *)
Definition cartopy_extent (p : local_params) : Q * Q * Q * Q :=
  (lon_0 p - width p / 2, lon_0 p + width p / 2,
   lat_0 p - height p / 2, lat_0 p + height p / 2).

(** *** [plot_basemap], ['local'] (lines 195-226) *)

Definition deg2m_lat : Q := 2 * np_pi * 6371 * 1000 / 360.
Definition deg2m_lon (lat0 : Q) : Q := deg2m_lat * np_cos (lat0 / 180 * np_pi).

(** Lines 208-216: [(width, height)] in metres before the aspect
    adjustment. *)
Definition basemap_footprint (lats : list Q) (lat0 max_lons min_lons : Q)
  : result (Q * Q) :=
  if (1 <? List.length lats)%nat then
    do mx <- Py.max lats;
    do mn <- Py.min lats;
    let height := (mx - mn) * deg2m_lat in
    let width := (max_lons - min_lons) * deg2m_lon lat0 in
    let margin := (2 # 10) * (width + height) in
    OK (width + margin, height + margin)
  else OK (5 * deg2m_lon lat0, 2 * deg2m_lat).

(** Lines 223-226; [width] is a numpy float here ([deg2m_lon] comes
    out of [np.cos]), so a zero [height] does not raise: the quotient
    is nan or an infinity and only a negative infinity is below
    [aspect]. *)
Definition basemap_adjust (wh : Q * Q) (a : Q) : Q * Q :=
  let '(width, height) := wh in
  let below :=
    if Qeq_bool height 0 then Py.Qltb width 0
    else Py.Qltb (width / height) a in
  if below then (height * a, height) else (width, width / a).

Definition basemap_local (lons lats : list Q) (show : bool)
  : result local_params :=
  do c <- local_center lons lats;
  let '(lat0, lon0, max_lons, min_lons) := c in
  do wh <- basemap_footprint lats lat0 max_lons min_lons;
  let wh' := basemap_adjust wh (aspect show) in
  OK (mkLocal lat0 lon0 (fst wh') (snd wh')).

(** *** The renderers up to the projection and the extent *)

Definition basemap_projection (projection : proj_arg) (lons lats : list Q)
    (show : bool) : result projection_built :=
  if proj_is projection "cyl" then OK Cyl
  else if proj_is projection "ortho" then OK Ortho
  else if proj_is projection "local" then
    do p <- basemap_local lons lats show; OK (Local p)
  else Raise (ValueError (projection_msg (proj_repr projection))).

Definition cartopy_projection (projection : proj_arg) (lons lats : list Q)
    (show : bool) : result projection_built :=
  if proj_is projection "cyl" then OK Cyl
  else if proj_is projection "ortho" then OK Ortho
  else if proj_is projection "local" then
    do p <- cartopy_local lons lats show; OK (Local p)
  else match projection with
       | PType _ => OK UserClass
       | PStr _ => Raise (ValueError (projection_msg (proj_repr projection)))
       end.

Definition plot_basemap (lons lats : list Q) (color : color_arg)
    (projection : proj_arg) (colorbar : option bool) : result plan :=
  do ca <- color_axis color;
  let '(min_color, max_color, flag, color') := ca in
  let show := decide_colorbar colorbar lons color' in
  do pb <- basemap_projection projection lons lats show;
  OK (mkPlan (min_color, max_color) flag show pb None color').

Definition plot_cartopy (lons lats : list Q) (color : color_arg)
    (projection : proj_arg) (colorbar : option bool) : result plan :=
  do ca <- color_axis color;
  let '(min_color, max_color, flag, color') := ca in
  let show := decide_colorbar colorbar lons color' in
  do pb <- cartopy_projection projection lons lats show;
  let ext := match pb with
             | Local p => Some (cartopy_extent p)
             | _ => None
             end in
  OK (mkPlan (min_color, max_color) flag show pb ext color').

(** *** [plot_map] (lines 619-638) *)

Definition plot_map (method : string) (lons lats : list Q)
    (color : color_arg) (projection : proj_arg) (colorbar : option bool)
  : result plan :=
  if String.eqb method "basemap" then
    plot_basemap lons lats color projection colorbar
  else if String.eqb method "cartopy" then
    plot_cartopy lons lats color projection colorbar
  else Raise (ValueError (method_msg method)).

End Renderers.

(** * Further code of the module *)

(** ** Resolution tables (lines 57-77) *)

(** A dict with string keys and values, as an association list;
    subscripting with a key that is absent raises [KeyError], here
    [None]. *)
Fixpoint dict_get (d : list (string * string)) (k : string) : option string :=
  match d with
  | [] => None
  | (k', v) :: d' => if String.eqb k k' then Some v else dict_get d' k
  end.

Definition _BASEMAP_RESOLUTIONS : list (string * string) :=
  [("110m", "l"); ("50m", "i"); ("10m", "f"); ("c", "c"); ("l", "l");
   ("i", "i"); ("h", "h"); ("f", "f")]%string.

Definition _CARTOPY_RESOLUTIONS : list (string * string) :=
  [("c", "110m"); ("l", "110m"); ("i", "50m"); ("h", "50m"); ("f", "10m");
   ("110m", "110m"); ("50m", "50m"); ("10m", "10m")]%string.

(** ** Axes layout (lines 172-186, 436-439 and 505-515) *)


(** ** Gridlines of the ['local'] projection in [plot_cartopy]
       (lines 533-565) *)




(** ** Labels (lines 281-293 and 573-578) *)

Fixpoint zip4 {A B C D : Type} (la : list A) (lb : list B) (lc : list C)
    (ld : list D) : list (A * B * C * D) :=
  match la, lb, lc, ld with
  | a :: la', b :: lb', c :: lc', d :: ld' => (a, b, c, d) :: zip4 la' lb' lc' ld'
  | _, _, _, _ => []
  end.

(** [if labels:] is false for [None] and for an empty list. *)
Definition truthy {A : Type} (labels : option (list A)) : list A :=
  match labels with Some l => l | None => [] end.

(** The [plt.text(x, y, name)] calls of [plot_basemap]; [x] and [y] are
    the projected coordinates the basemap object returned, [1e25] the
    off-map threshold. *)
Definition basemap_labels (labels : option (list string)) (lons : list Q)
    (x y : list Q) (color : color_arg) : result (list (Q * Q * string)) :=
  match truthy labels with
  | [] => OK []
  | label0 :: _ =>
      if (List.length lons <? 100)%nat && (1 <? List.length lons)%nat then
        do cs <- items color;
        OK (map (fun t => let '(name, xpt, ypt, _) := t in (xpt, ypt, name))
              (filter (fun t => let '(_, xpt, _, _) := t in
                                negb (Py.Qltb (inject_Z (10 ^ 25)) xpt))
                 (zip4 (truthy labels) x y cs)))
      else if (List.length lons =? 1)%nat then
        match x, y with
        | x0 :: _, y0 :: _ => OK [(x0, y0, label0)]
        | _, _ => Raise IndexError
        end
      else OK []
  end.

(** The [map_ax.text(x, y, name)] calls of [plot_cartopy]. *)
Definition cartopy_labels (labels : option (list string)) (lons lats : list Q)
    (color : color_arg) : result (list (Q * Q * string)) :=
  match truthy labels with
  | [] => OK []
  | _ :: _ =>
      if (0 <? List.length lons)%nat then
        do cs <- items color;
        OK (map (fun t => let '(name, xpt, ypt, _) := t in (xpt, ypt, name))
              (zip4 (truthy labels) lons lats cs))
      else OK []
  end.

(** ** Projection keyword arguments of [plot_cartopy] (lines 441-499) *)

(** A keyword value: a number, nan, the string ['auto'], or anything
    else (kept by its [repr]). *)
Inductive kwval : Type :=
| KNum (x : Q)
| KNan
| KAuto
| KOther (repr : string).

Definition is_auto (v : kwval) : bool :=
  match v with KAuto => true | _ => false end.

Fixpoint kw_get (d : list (string * kwval)) (k : string) : option kwval :=
  match d with
  | [] => None
  | (k', v) :: d' => if String.eqb k k' then Some v else kw_get d' k
  end.

(** [d[k] = v]: the entry is replaced where it stands, a new key goes to
    the end. *)
Fixpoint kw_set (d : list (string * kwval)) (k : string) (v : kwval)
  : list (string * kwval) :=
  match d with
  | [] => [(k, v)]
  | (k', v') :: d' =>
      if String.eqb k k' then (k', v) :: d' else (k', v') :: kw_set d' k v
  end.

(** [np.mean] of a list of numbers; nan (with a warning) when empty. *)
Definition np_mean (l : list Q) : kwval :=
  match l with
  | [] => KNan
  | _ :: _ => KNum (fold_right Qplus 0 l / inject_Z (Z.of_nat (List.length l)))
  end.

(** The keys on which ['auto'] is understood. *)
Definition auto_keys : list string :=
  ["central_longitude"; "central_latitude"; "pole_longitude";
   "pole_latitude"]%string.

(** [if k in d: if d[k] == 'auto': d[k] = v]. *)
Definition fill_auto (d : list (string * kwval)) (k : string) (v : kwval)
  : list (string * kwval) :=
  match kw_get d k with
  | Some old => if is_auto old then kw_set d k v else d
  | None => d
  end.

(** The dict the projection constructor is called with.  After
    [proj_kwargs = proj_kwargs or {}] the name is bound to the caller's
    own dict unless that was [None] or empty, so everything stored below
    is stored in the caller's dict. *)
Definition cartopy_proj_kwargs (fig_w fig_h : Q) (projection : proj_arg)
    (proj_kwargs : option (list (string * kwval))) (lons lats : list Q)
    (show : bool) : result (list (string * kwval)) :=
  let kw := truthy proj_kwargs in
  if proj_is projection "cyl" then OK kw
  else if proj_is projection "ortho" then
    let kw := kw_set kw "central_latitude" (np_mean lats) in
    let kw := kw_set kw "central_longitude" (np_mean lons) in
    OK kw
  else if proj_is projection "local" then
    do p <- cartopy_local fig_w fig_h lons lats show;
    let kw := kw_set kw "central_latitude" (KNum (lat_0 p)) in
    let kw := kw_set kw "central_longitude" (KNum (lon_0 p)) in
    OK kw
  else match projection with
       | PType _ =>
           let kw := fill_auto kw "central_longitude" (np_mean lons) in
           let kw := fill_auto kw "central_latitude" (np_mean lats) in
           let kw := fill_auto kw "pole_longitude" (np_mean lons) in
           let kw := fill_auto kw "pole_latitude" (np_mean lats) in
           OK kw
       | PStr _ => Raise (ValueError (projection_msg (proj_repr projection)))
       end.

(** The caller's dict object after the call: [None] and the empty dict
    are never written to (a fresh [{}] takes their place), any other
    dict is the one the constructor was called with. *)
Definition caller_kwargs_after (proj_kwargs : option (list (string * kwval)))
    (passed : list (string * kwval)) : option (list (string * kwval)) :=
  match proj_kwargs with
  | None => None
  | Some [] => Some []
  | Some (_ :: _) => Some passed
  end.

(** * Vocabulary of the properties *)

(** Concrete stand-ins for [np.pi] and [np.cos] at which the closed
    instances below are evaluated: 355/113 and the degree-four Taylor
    polynomial of the cosine. *)
Definition pi_355_113 : Q := 355 # 113.
Definition cos_taylor4 (x : Q) : Q := 1 - x * x / 2 + x * x * x * x / 24.

(** [date2num] as matplotlib documents it: days since 0001-01-01 plus
    one; the POSIX epoch is day 719163. *)
Definition mpl_date2num (t : Z) : Q := 719163 + inject_Z t / 86400000000.

Definition is_multiple_of (d x : Q) : Prop := exists k : Z, x == inject_Z k * d.

Definition first_last (l : list Q) : option (Q * Q) :=
  match l with
  | [] => None
  | x :: _ => Some (x, last l x)
  end.

Definition in_extent (e : Q * Q * Q * Q) (pt : Q * Q) : Prop :=
  let '(x0, x1, y0, y1) := e in
  x0 <= fst pt /\ fst pt <= x1 /\ y0 <= snd pt /\ snd pt <= y1.

Definition basemap_supported (p : proj_arg) : bool :=
  proj_is p "cyl" || proj_is p "ortho" || proj_is p "local".

Definition cartopy_supported (p : proj_arg) : bool :=
  basemap_supported p || match p with PType _ => true | PStr _ => false end.

(** The arguments on which one of the module's own [raise] statements is
    reached. *)
Definition rejected (method : string) (p : proj_arg) : bool :=
  if String.eqb method "basemap" then negb (basemap_supported p)
  else if String.eqb method "cartopy" then negb (cartopy_supported p)
  else true.

(** The errors of the module's own [raise] statements. *)
Definition module_error (e : exn) : Prop :=
  (exists m, e = ValueError (method_msg m)) \/
  (exists r, e = ValueError (projection_msg r)).

(** Everything else that can come out: exceptions of the builtins. *)
Definition builtin_exn (e : exn) : Prop :=
  match e with
  | ValueError m =>
      m = "min() arg is an empty sequence"%string \/
      m = "max() arg is an empty sequence"%string
  | _ => True
  end.

Definition raises_builtin {A : Type} (r : result A) : Prop :=
  forall e, r = Raise e -> builtin_exn e.

Definition occurs_in (sub s : string) : Prop :=
  exists pre post, s = (pre ++ sub ++ post)%string.

(** * Properties *)

(** ** [linspace2(0, 100, 8)] *)

(** The logarithm step at this input: [dval / N = 12.5] lies strictly
    between [10^(1/2)] and [10^(3/2)], so [round(-log10(12.5)) = -1]. *)
Lemma round_pos_12_5 :
  Py.round_neg_log10 (25 # 2) = OK (-1)%Z /\
  10 ^ 1 < (25 # 2) * (25 # 2) /\ (25 # 2) * (25 # 2) < 10 ^ 3.
Proof. repeat split. Qed.

(** The rounding step: [2 * dval / N / factor = 2.5] is a tie and goes to
    the even neighbour, so [delta = 2 * 10 / 2 = 10]. *)
Lemma linspace2_delta_0_100_8 :
  Py.round (25 # 10) = 2%Z /\
  exists d, linspace2_delta 0 100 8 = OK d /\ d == 10.
Proof. split; [reflexivity | eexists; split; reflexivity]. Qed.

Lemma linspace2_0_100_8_run :
  linspace2 0 100 8 =
  OK [0 # 80; 800 # 80; 1600 # 80; 2400 # 80; 3200 # 80; 4000 # 80;
      4800 # 80; 5600 # 80; 6400 # 80; 7200 # 80; 8000 # 80].
Proof. vm_compute. reflexivity. Qed.

(** C1 (as amended): [linspace2(0, 100, 8)] returns the eleven ticks
    0, 10, ..., 100: a strictly increasing sequence, every element an
    integer multiple of the one delta the function computed (10), first
    and last element inside [0, 100]; the number of elements is 11. *)
Theorem linspace2_0_100_8_ticks :
  exists ticks d,
    linspace2 0 100 8 = OK ticks /\
    linspace2_delta 0 100 8 = OK d /\ d == 10 /\
    Forall2 Qeq ticks [0; 10; 20; 30; 40; 50; 60; 70; 80; 90; 100] /\
    StronglySorted Qlt ticks /\
    Forall (is_multiple_of d) ticks /\
    (exists a b, first_last ticks = Some (a, b) /\ 0 <= a /\ b <= 100) /\
    List.length ticks = 11%nat.
Proof.
  eexists. eexists. split; [apply linspace2_0_100_8_run|].
  split; [reflexivity|]. split; [reflexivity|].
  split; [repeat constructor|].
  split; [repeat constructor|].
  split.
  - repeat (constructor;
            [ first [ exists 0%Z; reflexivity | exists 1%Z; reflexivity
                    | exists 2%Z; reflexivity | exists 3%Z; reflexivity
                    | exists 4%Z; reflexivity | exists 5%Z; reflexivity
                    | exists 6%Z; reflexivity | exists 7%Z; reflexivity
                    | exists 8%Z; reflexivity | exists 9%Z; reflexivity
                    | exists 10%Z; reflexivity ] | ]).
    constructor.
  - split; [|reflexivity].
    eexists. eexists. split; [reflexivity|]. split; discriminate.
Qed.

(** C1 (as stated) fails in its last part: the call returns 11 values,
    which is not between 6 and 10. *)
Lemma linspace2_0_100_8_count_not_within_2 :
  exists ticks,
    linspace2 0 100 8 = OK ticks /\
    ~ (6 <= List.length ticks <= 10)%nat.
Proof.
  eexists. split; [apply linspace2_0_100_8_run|]. simpl. lia.
Qed.

(** ** Helper lemmas: the error monad and [min] / [max] *)

Lemma bind_OK_inv {A B : Type} (m : result A) (k : A -> result B) (b : B) :
  bind m k = OK b -> exists a, m = OK a /\ k a = OK b.
Proof. destruct m as [a|e]; simpl; [eauto | discriminate]. Qed.

Ltac inv_bind H :=
  let a := fresh "v" in
  let Ha := fresh "Hv" in
  apply bind_OK_inv in H; destruct H as (a & Ha & H).

Lemma Qltb_true (a b : Q) : Py.Qltb a b = true <-> a < b.
Proof.
  unfold Py.Qltb. rewrite negb_true_iff. split; intro H.
  - apply Qnot_le_lt. intro Hle. apply Qle_bool_iff in Hle. congruence.
  - destruct (Qle_bool b a) eqn:E; [|reflexivity].
    apply Qle_bool_iff in E. exfalso. apply (Qlt_not_le _ _ H E).
Qed.

Lemma Qltb_false (a b : Q) : Py.Qltb a b = false <-> b <= a.
Proof.
  unfold Py.Qltb. rewrite negb_false_iff. apply Qle_bool_iff.
Qed.

Lemma min_nonempty (l : list Q) : l <> [] -> exists m, Py.min l = OK m.
Proof. destruct l; [congruence | simpl; eauto]. Qed.

Lemma max_nonempty (l : list Q) : l <> [] -> exists m, Py.max l = OK m.
Proof. destruct l; [congruence | simpl; eauto]. Qed.

Lemma min_from_le (l : list Q) (m : Q) :
  Py.min_from m l <= m /\ Forall (fun x => Py.min_from m l <= x) l.
Proof.
  revert m. induction l as [|x l IH]; intro m; simpl.
  - split; [apply Qle_refl | constructor].
  - destruct (Py.Qltb x m) eqn:E.
    + destruct (IH x) as [H1 H2]. apply Qltb_true in E.
      split; [lra | constructor; assumption].
    + destruct (IH m) as [H1 H2]. apply Qltb_false in E.
      split; [assumption | constructor; [lra | assumption]].
Qed.

Lemma max_from_ge (l : list Q) (m : Q) :
  m <= Py.max_from m l /\ Forall (fun x => x <= Py.max_from m l) l.
Proof.
  revert m. induction l as [|x l IH]; intro m; simpl.
  - split; [apply Qle_refl | constructor].
  - destruct (Py.Qltb m x) eqn:E.
    + destruct (IH x) as [H1 H2]. apply Qltb_true in E.
      split; [lra | constructor; assumption].
    + destruct (IH m) as [H1 H2]. apply Qltb_false in E.
      split; [assumption | constructor; [lra | assumption]].
Qed.

Lemma min_lower_bound (l : list Q) (m : Q) :
  Py.min l = OK m -> Forall (fun x => m <= x) l.
Proof.
  destruct l as [|x l]; simpl; [discriminate|].
  intro H. injection H as <-.
  destruct (min_from_le l x) as [H1 H2]. constructor; assumption.
Qed.

Lemma max_upper_bound (l : list Q) (m : Q) :
  Py.max l = OK m -> Forall (fun x => x <= m) l.
Proof.
  destruct l as [|x l]; simpl; [discriminate|].
  intro H. injection H as <-.
  destruct (max_from_ge l x) as [H1 H2]. constructor; assumption.
Qed.

Lemma min_le_max (l : list Q) (mn mx : Q) :
  Py.min l = OK mn -> Py.max l = OK mx -> mn <= mx.
Proof.
  intros Hmn Hmx. destruct l as [|x l]; [discriminate|].
  pose proof (min_lower_bound _ _ Hmn) as H1.
  pose proof (max_upper_bound _ _ Hmx) as H2.
  inversion H1; inversion H2; subst. lra.
Qed.

(** ** The centre longitude *)

Lemma straddles_spec (lons : list Q) (mn mx : Q) :
  Py.min lons = OK mn -> Py.max lons = OK mx ->
  straddles lons = OK (Py.Qltb mn (-150) && Py.Qltb 150 mx).
Proof.
  intros Hmn Hmx. unfold straddles. rewrite Hmn. simpl.
  destruct (Py.Qltb mn (-150)); simpl; [rewrite Hmx|]; reflexivity.
Qed.

Lemma half_sum (a b : Q) : a / 2 + b / 2 == (a + b) / 2.
Proof. field. Qed.

Lemma wrap180_le (x : Q) : x <= 180 -> wrap180 x = x.
Proof.
  intro H. unfold wrap180. apply Qltb_false in H. rewrite H. reflexivity.
Qed.

Lemma wrap180_gt (x : Q) : 180 < x -> wrap180 x = x - 360.
Proof.
  intro H. unfold wrap180. apply Qltb_true in H. rewrite H. reflexivity.
Qed.

Lemma local_center_no_straddle (lons lats : list Q) (mn mx : Q) :
  Py.min lons = OK mn -> Py.max lons = OK mx ->
  -150 <= mn \/ mx <= 150 ->
  lats <> [] ->
  exists lat0,
    local_center lons lats = OK (lat0, wrap180 (mx / 2 + mn / 2), mx, mn).
Proof.
  intros Hmn Hmx Hns Hlats.
  destruct (max_nonempty lats Hlats) as [a Ha].
  destruct (min_nonempty lats Hlats) as [b Hb].
  unfold local_center, lon_bounds.
  rewrite (straddles_spec _ _ _ Hmn Hmx).
  assert (Py.Qltb mn (-150) && Py.Qltb 150 mx = false) as ->.
  { apply andb_false_iff. destruct Hns as [H|H]; [left|right];
      apply Qltb_false; assumption. }
  simpl. rewrite Hmx. simpl. rewrite Hmn. simpl. rewrite Ha. simpl.
  rewrite Hb. simpl. eauto.
Qed.

Lemma local_center_straddle (lons lats : list Q) :
  straddles lons = OK true ->
  lats <> [] ->
  exists lat0 M m,
    Py.max (map Py.mod360 lons) = OK M /\
    Py.min (map Py.mod360 lons) = OK m /\
    local_center lons lats = OK (lat0, wrap180 (M / 2 + m / 2), M, m).
Proof.
  intros Hs Hlats.
  destruct (max_nonempty lats Hlats) as [a Ha].
  destruct (min_nonempty lats Hlats) as [b Hb].
  assert (map Py.mod360 lons <> []) as Hne.
  { destruct lons; [discriminate | discriminate]. }
  destruct (max_nonempty _ Hne) as [M HM].
  destruct (min_nonempty _ Hne) as [m Hm].
  exists (a / 2 + b / 2), M, m. split; [assumption|]. split; [assumption|].
  unfold local_center, lon_bounds. rewrite Hs. simpl.
  rewrite HM. simpl. rewrite Hm. simpl. rewrite Ha. simpl. rewrite Hb.
  reflexivity.
Qed.

Lemma basemap_local_center np_pi np_cos fig_w fig_h lons lats show p :
  basemap_local np_pi np_cos fig_w fig_h lons lats show = OK p ->
  exists M m, local_center lons lats = OK (lat_0 p, lon_0 p, M, m).
Proof.
  unfold basemap_local. intro H. inv_bind H.
  destruct v as [[[lat0 lon0] M] m]. inv_bind H.
  injection H as <-. simpl. eauto.
Qed.

Lemma cartopy_local_center fig_w fig_h lons lats show p :
  cartopy_local fig_w fig_h lons lats show = OK p ->
  exists M m, local_center lons lats = OK (lat_0 p, lon_0 p, M, m).
Proof.
  unfold cartopy_local. intro H. inv_bind H.
  destruct v as [[[lat0 lon0] M] m]. inv_bind H. inv_bind H.
  injection H as <-. simpl. eauto.
Qed.

(** C2: when the longitudes straddle the antimeridian the centre is the
    midpoint of the maximum and minimum of the longitudes taken modulo
    360, lowered by 360 when it exceeds 180, and this is the centre
    longitude of both renderers; for [lons = [-179, 179]] the bounds are
    181 and 179 and the centre is 180, not 0. *)
Theorem center_lon_antimeridian np_pi np_cos fig_w fig_h lons lats show :
  straddles lons = OK true ->
  lats <> [] ->
  (exists lat0 M m,
      Py.max (map Py.mod360 lons) = OK M /\
      Py.min (map Py.mod360 lons) = OK m /\
      local_center lons lats
        = OK (lat0, (if Py.Qltb 180 (M / 2 + m / 2)
                     then M / 2 + m / 2 - 360 else M / 2 + m / 2), M, m) /\
      (forall p, basemap_local np_pi np_cos fig_w fig_h lons lats show = OK p ->
                 lon_0 p = wrap180 (M / 2 + m / 2)) /\
      (forall p, cartopy_local fig_w fig_h lons lats show = OK p ->
                 lon_0 p = wrap180 (M / 2 + m / 2))) /\
  (straddles [-179; 179] = OK true /\
   exists lat0 lon0 M m,
      local_center [-179; 179] lats = OK (lat0, lon0, M, m) /\
      M == 181 /\ m == 179 /\ lon0 == 180 /\ ~ lon0 == 0).
Proof.
  intros Hs Hlats. split.
  - destruct (local_center_straddle lons lats Hs Hlats)
      as (lat0 & M & m & HM & Hm & Hc).
    exists lat0, M, m. repeat split; try assumption.
    + intros p Hp. apply basemap_local_center in Hp.
      destruct Hp as (M' & m' & Hp). rewrite Hc in Hp. congruence.
    + intros p Hp. apply cartopy_local_center in Hp.
      destruct Hp as (M' & m' & Hp). rewrite Hc in Hp. congruence.
  - split; [reflexivity|].
    destruct (local_center_straddle [-179; 179] lats eq_refl Hlats)
      as (lat0 & M & m & HM & Hm & Hc).
    vm_compute in HM. vm_compute in Hm.
    injection HM as <-. injection Hm as <-.
    eexists. eexists. eexists. eexists. split; [exact Hc|].
    repeat split; discriminate.
Qed.

Lemma center_lon_antimeridian_witness :
  exists lat0 lon0 M m,
    local_center [-179; 179] [10; 20] = OK (lat0, lon0, M, m) /\ lon0 == 180.
Proof.
  destruct (center_lon_antimeridian pi_355_113 cos_taylor4 8 6
              [-179; 179] [10; 20] true eq_refl ltac:(discriminate))
    as [_ [_ (lat0 & lon0 & M & m & Hc & _ & _ & Hl & _)]].
  exists lat0, lon0, M, m. split; assumption.
Defined.

(** C3 (as amended): when the longitudes do not straddle the antimeridian
    ([min(lon) >= -150] or [max(lon) <= 150]) the bounds are the plain
    maximum and minimum, and the centre longitude of both renderers is
    their midpoint [(max + min) / 2] when that midpoint is at most 180;
    a midpoint above 180 is lowered by 360. *)
Theorem center_lon_midpoint np_pi np_cos fig_w fig_h lons lats mn mx show :
  Py.min lons = OK mn ->
  Py.max lons = OK mx ->
  -150 <= mn \/ mx <= 150 ->
  lats <> [] ->
  exists lat0 lon0,
    local_center lons lats = OK (lat0, lon0, mx, mn) /\
    ((mx + mn) / 2 <= 180 -> lon0 == (mx + mn) / 2) /\
    (180 < (mx + mn) / 2 -> lon0 == (mx + mn) / 2 - 360) /\
    (forall p, basemap_local np_pi np_cos fig_w fig_h lons lats show = OK p ->
               lon_0 p = lon0) /\
    (forall p, cartopy_local fig_w fig_h lons lats show = OK p ->
               lon_0 p = lon0).
Proof.
  intros Hmn Hmx Hns Hlats.
  destruct (local_center_no_straddle lons lats mn mx Hmn Hmx Hns Hlats)
    as [lat0 Hc].
  exists lat0, (wrap180 (mx / 2 + mn / 2)).
  split; [assumption|]. split; [|split; [|split]].
  - intro H. rewrite wrap180_le by (rewrite half_sum; exact H).
    apply half_sum.
  - intro H. rewrite wrap180_gt by (rewrite half_sum; exact H).
    rewrite half_sum. reflexivity.
  - intros p Hp. apply basemap_local_center in Hp.
    destruct Hp as (M' & m' & Hp). rewrite Hc in Hp. congruence.
  - intros p Hp. apply cartopy_local_center in Hp.
    destruct Hp as (M' & m' & Hp). rewrite Hc in Hp. congruence.
Qed.

Lemma center_lon_midpoint_witness :
  exists lat0 lon0,
    local_center [10; 30] [40; 50] = OK (lat0, lon0, 30, 10) /\ lon0 == 20.
Proof.
  destruct (center_lon_midpoint pi_355_113 cos_taylor4 8 6
              [10; 30] [40; 50] 10 30 true eq_refl eq_refl
              ltac:(left; discriminate) ltac:(discriminate))
    as (lat0 & lon0 & Hc & Hle & _).
  exists lat0, lon0. split; [exact Hc|].
  rewrite Hle; [reflexivity | discriminate].
Defined.

(** C3 (as stated) fails: [lons = [170, 200]] has [min(lon) >= -150], and
    the centre longitude is -175, not the midpoint 185. *)
Lemma center_lon_midpoint_counterexample :
  exists lat0 lon0,
    Py.min [170; 200] = OK 170 /\ Py.max [170; 200] = OK 200 /\
    -150 <= 170 /\
    local_center [170; 200] [0] = OK (lat0, lon0, 200, 170) /\
    lon0 == -175 /\
    ~ lon0 == (200 + 170) / 2.
Proof.
  eexists. eexists. repeat split; discriminate.
Qed.

(** ** The aspect adjustment *)

Lemma aspect_pos fig_w fig_h show :
  0 < fig_w -> 0 < fig_h -> 0 < aspect fig_w fig_h show.
Proof.
  intros Hw Hh. unfold aspect.
  assert (0 < fig_w / fig_h) as Hq.
  { apply Qlt_shift_div_l; [assumption | lra]. }
  destruct show; lra.
Qed.

Lemma div_lt_mul (w h a : Q) : 0 < h -> w / h < a -> w < h * a.
Proof.
  intros Hh H. assert (w == (w / h) * h) as E by (field; lra).
  rewrite E. rewrite (Qmult_comm h a). apply Qmult_lt_compat_r; assumption.
Qed.

Lemma div_ge_mul (w h a : Q) : 0 < h -> a <= w / h -> h * a <= w.
Proof.
  intros Hh H. assert (w == (w / h) * h) as E by (field; lra).
  rewrite E. rewrite (Qmult_comm h a).
  apply Qmult_le_compat_r; [assumption | lra].
Qed.

(** The two branches of the adjustment on a footprint of positive height
    under a positive aspect. *)
Lemma adjust_spec (w h a : Q) :
  0 < h -> 0 < a ->
  exists w' h',
    cartopy_adjust (w, h) a = OK (w', h') /\
    basemap_adjust (w, h) a = (w', h') /\
    w' / h' == a /\
    ((w / h < a /\ w' = h * a /\ h' = h) \/
     (a <= w / h /\ w' = w /\ h' = w / a)) /\
    w <= w' /\ h <= h' /\ 0 < w' /\ 0 < h'.
Proof.
  intros Hh Ha.
  assert (Qeq_bool h 0 = false) as Hz.
  { destruct (Qeq_bool h 0) eqn:E; [|reflexivity].
    apply Qeq_bool_iff in E. lra. }
  unfold cartopy_adjust, basemap_adjust, Py.div. rewrite Hz. simpl.
  destruct (Py.Qltb (w / h) a) eqn:E.
  - apply Qltb_true in E. pose proof (div_lt_mul w h a Hh E) as Hlt.
    exists (h * a), h. repeat split; try reflexivity.
    + field. lra.
    + left. repeat split. assumption.
    + lra.
    + lra.
    + nra.
    + assumption.
  - apply Qltb_false in E. pose proof (div_ge_mul w h a Hh E) as Hge.
    assert (0 < w) as Hw by nra.
    assert (h <= w / a) as Hle.
    { apply Qle_shift_div_l; assumption. }
    exists w, (w / a). repeat split; try reflexivity.
    + field. split; lra.
    + right. repeat split. assumption.
    + lra.
    + assumption.
    + assumption.
    + lra.
Qed.


Lemma lon_bounds_ordered lons M m : lon_bounds lons = OK (M, m) -> m <= M.
Proof.
  unfold lon_bounds. intro H. inv_bind H. destruct v.
  - inv_bind H. inv_bind H. injection H as <- <-.
    apply (min_le_max _ _ _ Hv1 Hv0).
  - inv_bind H. inv_bind H. injection H as <- <-.
    apply (min_le_max _ _ _ Hv1 Hv0).
Qed.





(** ** The ['local'] extent of [plot_cartopy] *)

Lemma interval_in_box (mn mx x c w : Q) :
  mn <= x -> x <= mx -> c == mx / 2 + mn / 2 -> mx - mn <= w ->
  c - w / 2 <= x /\ x <= c + w / 2.
Proof.
  intros H1 H2 Hc Hw.
  assert (2 * (w / 2) == w) as Ew by field.
  assert (2 * (mx / 2) == mx) as Ex by field.
  assert (2 * (mn / 2) == mn) as En by field.
  revert Hc Ew Ex En.
  generalize (w / 2) (mx / 2) (mn / 2). intros hw hx hn Hc Ew Ex En.
  split; lra.
Qed.

Lemma cartopy_local_run fig_w fig_h lons lats show mnlon mxlon mnlat mxlat :
  0 < fig_w -> 0 < fig_h ->
  (2 <= List.length lats)%nat ->
  Py.min lons = OK mnlon -> Py.max lons = OK mxlon ->
  Py.min lats = OK mnlat -> Py.max lats = OK mxlat ->
  -150 <= mnlon \/ mxlon <= 150 ->
  mnlon < mxlon \/ mnlat < mxlat ->
  exists w h,
    cartopy_local fig_w fig_h lons lats show
      = OK (mkLocal (mxlat / 2 + mnlat / 2) (wrap180 (mxlon / 2 + mnlon / 2)) w h) /\
    mxlon - mnlon <= w /\ mxlat - mnlat <= h.
Proof.
  intros Hfw Hfh Hlen Hmn Hmx Hmnl Hmxl Hns Hnd.
  assert (lats <> []) as Hne by (destruct lats; [simpl in Hlen; lia | discriminate]).
  destruct (local_center_no_straddle lons lats mnlon mxlon Hmn Hmx Hns Hne)
    as [lat0 Hc].
  assert (lat0 = mxlat / 2 + mnlat / 2) as ->.
  { unfold local_center in Hc. inv_bind Hc. destruct v as [M m].
    rewrite Hmxl, Hmnl in Hc. simpl in Hc. congruence. }
  pose proof (min_le_max _ _ _ Hmn Hmx) as Hlon.
  pose proof (min_le_max _ _ _ Hmnl Hmxl) as Hlat.
  set (w0 := mxlon - mnlon + (2 # 10) * (mxlon - mnlon + (mxlat - mnlat))).
  set (h0 := mxlat - mnlat + (2 # 10) * (mxlon - mnlon + (mxlat - mnlat))).
  assert (cartopy_footprint lats mxlon mnlon = OK (w0, h0)) as Hf.
  { unfold cartopy_footprint.
    assert ((1 <? List.length lats)%nat = true) as -> by (apply Nat.ltb_lt; lia).
    rewrite Hmxl, Hmnl. reflexivity. }
  assert (0 < h0) as Hh0 by (unfold h0; destruct Hnd; lra).
  destruct (adjust_spec w0 h0 _ Hh0 (aspect_pos fig_w fig_h show Hfw Hfh))
    as (w' & h' & H1 & _ & _ & _ & Hw' & Hh' & _).
  exists w', h'. split.
  - unfold cartopy_local. rewrite Hc. cbn [bind]. rewrite Hf. cbn [bind].
    rewrite H1. reflexivity.
  - unfold w0 in Hw'. unfold h0 in Hh'. split; lra.
Qed.

(** C4 (as amended): for at least two points that do not straddle the
    antimeridian, are not all at one place, and whose longitude midpoint
    is at most 180, [plot_cartopy] with ['local'] returns, and the extent
    it sets, [lon_0 -/+ width/2] by [lat_0 -/+ height/2], contains every
    input point. *)
Theorem cartopy_extent_contains_points date2num fig_w fig_h lons lats
    color colorbar ca mnlon mxlon mnlat mxlat :
  0 < fig_w -> 0 < fig_h ->
  color_axis date2num color = OK ca ->
  (2 <= List.length lats)%nat ->
  Py.min lons = OK mnlon -> Py.max lons = OK mxlon ->
  Py.min lats = OK mnlat -> Py.max lats = OK mxlat ->
  -150 <= mnlon \/ mxlon <= 150 ->
  mnlon < mxlon \/ mnlat < mxlat ->
  (mxlon + mnlon) / 2 <= 180 ->
  exists pl p,
    plot_cartopy date2num fig_w fig_h lons lats color (PStr "local") colorbar
      = OK pl /\
    proj pl = Local p /\
    extent pl = Some (lon_0 p - width p / 2, lon_0 p + width p / 2,
                      lat_0 p - height p / 2, lat_0 p + height p / 2) /\
    Forall (in_extent (cartopy_extent p)) (combine lons lats).
Proof.
  intros Hfw Hfh Hca Hlen Hmn Hmx Hmnl Hmxl Hns Hnd Hmid.
  destruct ca as [[[cmin cmax] flag] color'].
  destruct (cartopy_local_run fig_w fig_h lons lats
              (decide_colorbar colorbar lons color')
              mnlon mxlon mnlat mxlat Hfw Hfh Hlen Hmn Hmx Hmnl Hmxl Hns Hnd)
    as (w & h & Hrun & Hw & Hh).
  eexists. eexists. split; [|split; [|split]].
  - unfold plot_cartopy. rewrite Hca. simpl.
    unfold cartopy_projection. simpl. rewrite Hrun. simpl. reflexivity.
  - reflexivity.
  - reflexivity.
  - unfold cartopy_extent. simpl.
    rewrite wrap180_le by (rewrite half_sum; exact Hmid).
    pose proof (min_lower_bound _ _ Hmn) as Llo.
    pose proof (max_upper_bound _ _ Hmx) as Lhi.
    pose proof (min_lower_bound _ _ Hmnl) as Tlo.
    pose proof (max_upper_bound _ _ Hmxl) as Thi.
    rewrite Forall_forall in *. intros [lon lat] Hin.
    pose proof (in_combine_l _ _ _ _ Hin) as Hl.
    pose proof (in_combine_r _ _ _ _ Hin) as Ht.
    destruct (interval_in_box mnlon mxlon lon (mxlon / 2 + mnlon / 2) w
                (Llo _ Hl) (Lhi _ Hl) (Qeq_refl _) Hw) as [A B].
    destruct (interval_in_box mnlat mxlat lat (mxlat / 2 + mnlat / 2) h
                (Tlo _ Ht) (Thi _ Ht) (Qeq_refl _) Hh) as [C D].
    simpl. repeat split; assumption.
Qed.

Lemma cartopy_extent_contains_points_witness :
  exists pl p,
    plot_cartopy mpl_date2num 8 6 [10; 30] [40; 50]
      (CSeq [Num 1; Num 2]) (PStr "local") None = OK pl /\
    proj pl = Local p /\
    Forall (in_extent (cartopy_extent p)) [(10, 40); (30, 50)].
Proof.
  destruct (cartopy_extent_contains_points
              mpl_date2num 8 6 [10; 30] [40; 50]
              (CSeq [Num 1; Num 2]) None
              (Num 1, Num 2, false, CSeq [Num 1; Num 2]) 10 30 40 50
              ltac:(reflexivity) ltac:(reflexivity) eq_refl
              ltac:(simpl; lia) eq_refl eq_refl eq_refl eq_refl
              ltac:(left; discriminate) ltac:(left; reflexivity)
              ltac:(discriminate))
    as (pl & p & H1 & H2 & _ & H4).
  exists pl, p. repeat split; assumption.
Defined.

(** C4 (as stated) fails.  Two points at longitudes 170 and 200 do not
    straddle the antimeridian ([min(lon) >= -150]); the centre is lowered
    by 360 to -175 and the extent [-194, -156] holds neither longitude.
    Two points at one place give a zero footprint and the aspect test
    divides by zero, so no extent is set at all. *)
Lemma cartopy_extent_counterexample :
  (exists p x0 x1 y0 y1,
      straddles [170; 200] = OK false /\
      cartopy_local 8 6 [170; 200] [0; 10] true = OK p /\
      cartopy_extent p = (x0, x1, y0, y1) /\
      x0 == -194 /\ x1 == -156 /\ y0 == -(55 # 8) /\ y1 == 135 # 8 /\
      ~ in_extent (cartopy_extent p) (170, 0) /\
      ~ in_extent (cartopy_extent p) (200, 10)) /\
  (straddles [10; 10] = OK false /\
   cartopy_local 8 6 [10; 10] [20; 20] true = Raise ZeroDivisionError).
Proof.
  split.
  - eexists. eexists. eexists. eexists. eexists.
    split; [reflexivity|]. split; [vm_compute; reflexivity|].
    split; [vm_compute; reflexivity|].
    repeat split; try reflexivity.
    + intros (_ & H & _). apply H. reflexivity.
    + intros (_ & H & _). apply H. reflexivity.
  - split; reflexivity.
Qed.

(** ** A single point *)

Lemma local_center_single (x y : Q) :
  local_center [x] [y] = OK (y / 2 + y / 2, wrap180 (x / 2 + x / 2), x, x).
Proof.
  unfold local_center, lon_bounds, straddles. simpl.
  destruct (Py.Qltb x (-150)) eqn:E1; simpl; [|reflexivity].
  destruct (Py.Qltb 150 x) eqn:E2; simpl; [|reflexivity].
  apply Qltb_true in E1. apply Qltb_true in E2. lra.
Qed.

Lemma deg2m_lat_pos np_pi : 0 < np_pi -> 0 < deg2m_lat np_pi.
Proof.
  intro H. unfold deg2m_lat. apply Qlt_shift_div_l; [reflexivity | lra].
Qed.

(** C5: for a single point the footprint is the fixed fallback, width 5
    and height 2 degrees in [plot_cartopy] and the same converted to
    metres in [plot_basemap]; both renderers return, and since the aspect
    adjustment lowers neither dimension the final box is at least that
    large and never of zero size. *)
Theorem single_point_footprint np_pi np_cos fig_w fig_h x y show :
  0 < fig_w -> 0 < fig_h -> 0 < np_pi ->
  (forall M m, cartopy_footprint [y] M m = OK (5, 2)) /\
  (forall lat0 M m,
      basemap_footprint np_pi np_cos [y] lat0 M m
        = OK (5 * deg2m_lon np_pi np_cos lat0, 2 * deg2m_lat np_pi)) /\
  (exists p,
      cartopy_local fig_w fig_h [x] [y] show = OK p /\
      5 <= width p /\ 2 <= height p) /\
  (exists p,
      basemap_local np_pi np_cos fig_w fig_h [x] [y] show = OK p /\
      5 * deg2m_lon np_pi np_cos (lat_0 p) <= width p /\
      2 * deg2m_lat np_pi <= height p /\
      0 < width p /\ 0 < height p).
Proof.
  intros Hfw Hfh Hpi.
  pose proof (aspect_pos fig_w fig_h show Hfw Hfh) as Ha.
  split; [reflexivity|]. split; [reflexivity|]. split.
  - destruct (adjust_spec 5 2 _ ltac:(reflexivity) Ha)
      as (w' & h' & H1 & _ & _ & _ & Hw & Hh & _).
    exists (mkLocal (y / 2 + y / 2) (wrap180 (x / 2 + x / 2)) w' h').
    split; [|split; assumption].
    unfold cartopy_local. rewrite local_center_single. cbn [bind].
    change (cartopy_footprint [y] x x) with (@OK (Q * Q) (5, 2)). cbn [bind].
    rewrite H1. reflexivity.
  - pose proof (deg2m_lat_pos np_pi Hpi) as Hd.
    assert (0 < 2 * deg2m_lat np_pi) as Hh0 by lra.
    destruct (adjust_spec (5 * deg2m_lon np_pi np_cos (y / 2 + y / 2))
                (2 * deg2m_lat np_pi) _ Hh0 Ha)
      as (w' & h' & _ & H2 & _ & _ & Hw & Hh & Hw' & Hh').
    exists (mkLocal (y / 2 + y / 2) (wrap180 (x / 2 + x / 2)) w' h').
    split; [|repeat split; assumption].
    unfold basemap_local. rewrite local_center_single. cbn [bind].
    change (basemap_footprint np_pi np_cos [y] (y / 2 + y / 2) x x)
      with (@OK (Q * Q) (5 * deg2m_lon np_pi np_cos (y / 2 + y / 2),
                         2 * deg2m_lat np_pi)).
    cbn [bind]. rewrite H2. reflexivity.
Qed.

Lemma single_point_footprint_witness :
  cartopy_footprint [45] 13 13 = OK (5, 2) /\
  exists p, cartopy_local 8 6 [13] [45] false = OK p /\ 2 <= height p.
Proof.
  destruct (single_point_footprint pi_355_113 cos_taylor4 8 6 13 45 false
              ltac:(reflexivity) ltac:(reflexivity) ltac:(reflexivity))
    as (H1 & _ & (p & Hp & _ & Hh) & _).
  split; [apply H1|]. exists p. split; assumption.
Defined.

(** ** The colorbar decision *)

Lemma convert_color_kind date2num color flag color' :
  convert_color date2num color = OK (flag, color') ->
  has_len color' = has_len color /\ is_str color' = is_str color.
Proof.
  unfold convert_color. intro H. inv_bind H.
  destruct v as [|c0 l]; [discriminate|].
  destruct (is_stamp c0) eqn:E.
  - inv_bind H. injection H as _ <-.
    destruct color as [l0|s0|x0]; simpl in *; [auto | | discriminate].
    destruct s0; simpl in Hv; [discriminate|].
    injection Hv as <- _. discriminate.
  - injection H as _ <-. auto.
Qed.

Lemma decide_colorbar_converted date2num color cmin cmax flag color'
    colorbar lons :
  color_axis date2num color = OK (cmin, cmax, flag, color') ->
  decide_colorbar colorbar lons color' = decide_colorbar colorbar lons color.
Proof.
  unfold color_axis. intro H. inv_bind H. inv_bind H. inv_bind H. inv_bind H.
  destruct v2 as [f c]. injection H as _ _ <- <-.
  destruct (convert_color_kind _ _ _ _ Hv2) as [H1 H2].
  unfold decide_colorbar. rewrite H1, H2. reflexivity.
Qed.

(** C6: an explicit [colorbar] decides; with [colorbar=None] the colorbar
    is shown exactly when more than one point is plotted and [color] is a
    sequence that is not a string.  Both renderers take the decision from
    this one rule (the timestamp conversion turns a list into a list, so
    it does not change the answer). *)
Theorem colorbar_decision :
  (forall b lons color, decide_colorbar (Some b) lons color = b) /\
  (forall lons color,
      decide_colorbar None lons color = true <->
      (1 < List.length lons)%nat /\
      has_len color = true /\ is_str color = false) /\
  decide_colorbar None [10; 20; 30] (CSeq [Num 1; Num 2; Num 3]) = true /\
  decide_colorbar None [10] (CSeq [Num 1; Num 2; Num 3]) = false /\
  decide_colorbar (Some false) [10; 20; 30] (CSeq [Num 1; Num 2; Num 3]) = false /\
  (forall date2num np_pi np_cos fig_w fig_h lons lats color projection colorbar pl,
      plot_basemap date2num np_pi np_cos fig_w fig_h
        lons lats color projection colorbar = OK pl \/
      plot_cartopy date2num fig_w fig_h
        lons lats color projection colorbar = OK pl ->
      show_colorbar pl = decide_colorbar colorbar lons color).
Proof.
  split; [reflexivity|]. split; [|split; [reflexivity|split; [reflexivity|split; [reflexivity|]]]].
  - intros lons color. unfold decide_colorbar. split.
    + destruct (1 <? List.length lons)%nat eqn:E; simpl; [|discriminate].
      apply Nat.ltb_lt in E. destruct color; simpl; try discriminate.
      intros _. repeat split; assumption.
    + intros (H & H1 & H2). apply Nat.ltb_lt in H. rewrite H, H1, H2.
      reflexivity.
  - intros date2num np_pi np_cos fig_w fig_h lons lats color projection
      colorbar pl [H|H].
    + unfold plot_basemap in H. inv_bind H.
      destruct v as [[[cmin cmax] flag] color']. inv_bind H.
      injection H as <-. simpl.
      apply (decide_colorbar_converted _ _ _ _ _ _ _ _ Hv).
    + unfold plot_cartopy in H. inv_bind H.
      destruct v as [[[cmin cmax] flag] color']. inv_bind H.
      injection H as <-. simpl.
      apply (decide_colorbar_converted _ _ _ _ _ _ _ _ Hv).
Qed.

Lemma colorbar_decision_witness :
  decide_colorbar None [10; 20] (CSeq [Num 1; Num 2]) = true.
Proof.
  apply (proj1 (proj2 colorbar_decision) [10; 20] (CSeq [Num 1; Num 2])).
  repeat split. simpl. lia.
Defined.

(** ** Error conditions *)

Lemma builtin_not_module e : builtin_exn e -> ~ module_error e.
Proof.
  intros Hb [[m ->]|[r ->]]; simpl in Hb; destruct Hb as [H|H];
    discriminate H.
Qed.

Lemma rb_OK {A : Type} (a : A) : raises_builtin (OK a).
Proof. intros e H. discriminate. Qed.

Lemma rb_bind {A B : Type} (m : result A) (k : A -> result B) :
  raises_builtin m -> (forall a, raises_builtin (k a)) ->
  raises_builtin (bind m k).
Proof.
  intros Hm Hk e H. destruct m as [a|e']; simpl in H.
  - apply (Hk a e H).
  - injection H as <-. apply Hm. reflexivity.
Qed.

Lemma rb_min l : raises_builtin (Py.min l).
Proof.
  intros e H. destruct l; simpl in H; [|discriminate].
  injection H as <-. simpl. auto.
Qed.

Lemma rb_max l : raises_builtin (Py.max l).
Proof.
  intros e H. destruct l; simpl in H; [|discriminate].
  injection H as <-. simpl. auto.
Qed.

Lemma rb_cv_lt a b : raises_builtin (cv_lt a b).
Proof.
  intros e H. destruct a, b; simpl in H; try discriminate;
    injection H as <-; exact I.
Qed.

Lemma rb_cv_min_from l : forall m, raises_builtin (cv_min_from m l).
Proof.
  induction l as [|x l IH]; intro m; simpl; [apply rb_OK|].
  apply rb_bind; [apply rb_cv_lt | intro b; apply IH].
Qed.

Lemma rb_cv_max_from l : forall m, raises_builtin (cv_max_from m l).
Proof.
  induction l as [|x l IH]; intro m; simpl; [apply rb_OK|].
  apply rb_bind; [apply rb_cv_lt | intro b; apply IH].
Qed.

Lemma rb_cv_min l : raises_builtin (cv_min l).
Proof.
  destruct l; simpl; [|apply rb_cv_min_from].
  intros e H. injection H as <-. simpl. auto.
Qed.

Lemma rb_cv_max l : raises_builtin (cv_max l).
Proof.
  destruct l; simpl; [|apply rb_cv_max_from].
  intros e H. injection H as <-. simpl. auto.
Qed.

Lemma rb_items color : raises_builtin (items color).
Proof.
  intros e H. destruct color; simpl in H; try discriminate.
  injection H as <-. exact I.
Qed.

Lemma rb_mapM_date2num date2num l :
  raises_builtin (mapM (date2num_item date2num) l).
Proof.
  induction l as [|c l IH]; simpl; [apply rb_OK|].
  apply rb_bind.
  - intros e H. destruct c; simpl in H; try discriminate;
      injection H as <-; exact I.
  - intro b. apply rb_bind; [exact IH | intro; apply rb_OK].
Qed.

Lemma rb_convert_color date2num color :
  raises_builtin (convert_color date2num color).
Proof.
  unfold convert_color. apply rb_bind; [apply rb_items|].
  intros [|c0 l].
  - intros e H. injection H as <-. exact I.
  - destruct (is_stamp c0); [|apply rb_OK].
    apply rb_bind; [apply rb_mapM_date2num | intro; apply rb_OK].
Qed.

Lemma rb_color_axis date2num color :
  raises_builtin (color_axis date2num color).
Proof.
  unfold color_axis.
  apply rb_bind; [apply rb_items | intro l].
  apply rb_bind; [apply rb_cv_min | intro a].
  apply rb_bind; [apply rb_cv_max | intro b].
  apply rb_bind; [apply rb_convert_color | intros [f c]; apply rb_OK].
Qed.

Lemma rb_local_center lons lats : raises_builtin (local_center lons lats).
Proof.
  unfold local_center, lon_bounds, straddles.
  repeat first
    [ apply rb_OK | apply rb_min | apply rb_max
    | apply rb_bind; [|intro]
    | match goal with
      | |- raises_builtin (if ?c then _ else _) => destruct c
      | |- raises_builtin (let '(_, _) := ?p in _) => destruct p
      end ].
Qed.

Lemma rb_cartopy_local fig_w fig_h lons lats show :
  raises_builtin (cartopy_local fig_w fig_h lons lats show).
Proof.
  unfold cartopy_local.
  apply rb_bind; [apply rb_local_center | intros [[[lat0 lon0] M] m]].
  apply rb_bind.
  - unfold cartopy_footprint. destruct (1 <? List.length lats)%nat;
      [|apply rb_OK].
    apply rb_bind; [apply rb_max | intro].
    apply rb_bind; [apply rb_min | intro; apply rb_OK].
  - intros [w h]. apply rb_bind; [|intro; apply rb_OK].
    unfold cartopy_adjust, Py.div. destruct (Qeq_bool h 0); simpl.
    + intros e H. injection H as <-. exact I.
    + destruct (Py.Qltb (w / h) (aspect fig_w fig_h show)); apply rb_OK.
Qed.

Lemma rb_basemap_local np_pi np_cos fig_w fig_h lons lats show :
  raises_builtin (basemap_local np_pi np_cos fig_w fig_h lons lats show).
Proof.
  unfold basemap_local.
  apply rb_bind; [apply rb_local_center | intros [[[lat0 lon0] M] m]].
  apply rb_bind; [|intro; apply rb_OK].
  unfold basemap_footprint. destruct (1 <? List.length lats)%nat;
    [|apply rb_OK].
  apply rb_bind; [apply rb_max | intro].
  apply rb_bind; [apply rb_min | intro; apply rb_OK].
Qed.

Lemma basemap_projection_raises np_pi np_cos fig_w fig_h p lons lats show e :
  basemap_projection np_pi np_cos fig_w fig_h p lons lats show = Raise e ->
  module_error e -> basemap_supported p = false.
Proof.
  unfold basemap_projection, basemap_supported. intros H Hm.
  destruct (proj_is p "cyl"); [discriminate|].
  destruct (proj_is p "ortho"); [discriminate|].
  destruct (proj_is p "local"); [|reflexivity].
  exfalso. revert Hm. apply builtin_not_module.
  apply (rb_bind _ _ (rb_basemap_local np_pi np_cos fig_w fig_h lons lats show)
           (fun a => rb_OK _) e H).
Qed.

Lemma cartopy_projection_raises fig_w fig_h p lons lats show e :
  cartopy_projection fig_w fig_h p lons lats show = Raise e ->
  module_error e -> cartopy_supported p = false.
Proof.
  unfold cartopy_projection, cartopy_supported, basemap_supported. intros H Hm.
  destruct (proj_is p "cyl"); [discriminate|].
  destruct (proj_is p "ortho"); [discriminate|].
  destruct (proj_is p "local").
  - exfalso. revert Hm. apply builtin_not_module.
    apply (rb_bind _ _ (rb_cartopy_local fig_w fig_h lons lats show)
             (fun a => rb_OK _) e H).
  - destruct p; [reflexivity | discriminate].
Qed.

(** C7: [plot_map] raises [ValueError] with a message holding the method
    name for every method other than ['basemap'] and ['cartopy'];
    [plot_basemap] and [plot_cartopy] raise [ValueError] with a message
    holding the projection for every projection outside
    ['cyl'] / ['ortho'] / ['local'] (a class is accepted by
    [plot_cartopy]), once the colour axis has been computed; and an error
    of one of these forms comes out of [plot_map] only on such
    arguments. *)
Theorem module_errors date2num np_pi np_cos fig_w fig_h lons lats color
    colorbar :
  (forall method projection,
      method <> "basemap"%string -> method <> "cartopy"%string ->
      plot_map date2num np_pi np_cos fig_w fig_h method
        lons lats color projection colorbar
        = Raise (ValueError (method_msg method)) /\
      occurs_in method (method_msg method)) /\
  (forall projection ca,
      color_axis date2num color = OK ca ->
      basemap_supported projection = false ->
      plot_basemap date2num np_pi np_cos fig_w fig_h
        lons lats color projection colorbar
        = Raise (ValueError (projection_msg (proj_repr projection))) /\
      occurs_in (proj_repr projection)
        (projection_msg (proj_repr projection))) /\
  (forall projection ca,
      color_axis date2num color = OK ca ->
      cartopy_supported projection = false ->
      plot_cartopy date2num fig_w fig_h
        lons lats color projection colorbar
        = Raise (ValueError (projection_msg (proj_repr projection))) /\
      occurs_in (proj_repr projection)
        (projection_msg (proj_repr projection))) /\
  (forall method projection e,
      plot_map date2num np_pi np_cos fig_w fig_h method
        lons lats color projection colorbar = Raise e ->
      module_error e ->
      rejected method projection = true).
Proof.
  split; [|split; [|split]].
  - intros method projection H1 H2. split.
    + unfold plot_map. apply String.eqb_neq in H1. apply String.eqb_neq in H2.
      rewrite H1, H2. reflexivity.
    + eexists. eexists. reflexivity.
  - intros projection ca Hca Hs. split; [|eexists; eexists; reflexivity].
    unfold plot_basemap. rewrite Hca. cbn [bind].
    destruct ca as [[[cmin cmax] flag] color'].
    unfold basemap_supported in Hs.
    apply orb_false_iff in Hs. destruct Hs as [Hs H3].
    apply orb_false_iff in Hs. destruct Hs as [H1 H2].
    unfold basemap_projection. rewrite H1, H2, H3. reflexivity.
  - intros projection ca Hca Hs. split; [|eexists; eexists; reflexivity].
    unfold plot_cartopy. rewrite Hca. cbn [bind].
    destruct ca as [[[cmin cmax] flag] color'].
    unfold cartopy_supported, basemap_supported in Hs.
    apply orb_false_iff in Hs. destruct Hs as [Hs H4].
    apply orb_false_iff in Hs. destruct Hs as [Hs H3].
    apply orb_false_iff in Hs. destruct Hs as [H1 H2].
    unfold cartopy_projection. rewrite H1, H2, H3.
    destruct projection; [reflexivity | discriminate].
  - intros method projection e H Hm. unfold rejected. unfold plot_map in H.
    destruct (String.eqb method "basemap").
    + apply negb_true_iff. unfold plot_basemap in H.
      destruct (color_axis date2num color) as [ca|e0] eqn:Hca.
      * cbn [bind] in H. destruct ca as [[[cmin cmax] flag] color'].
        destruct (basemap_projection np_pi np_cos fig_w fig_h projection
                    lons lats (decide_colorbar colorbar lons color'))
          as [pb|e1] eqn:Hp; [discriminate|].
        simpl in H. injection H as <-.
        apply (basemap_projection_raises _ _ _ _ _ _ _ _ _ Hp Hm).
      * simpl in H. injection H as <-. exfalso. revert Hm.
        apply builtin_not_module. apply (rb_color_axis _ _ _ Hca).
    + destruct (String.eqb method "cartopy"); [|reflexivity].
      apply negb_true_iff. unfold plot_cartopy in H.
      destruct (color_axis date2num color) as [ca|e0] eqn:Hca.
      * cbn [bind] in H. destruct ca as [[[cmin cmax] flag] color'].
        destruct (cartopy_projection fig_w fig_h projection
                    lons lats (decide_colorbar colorbar lons color'))
          as [pb|e1] eqn:Hp; [discriminate|].
        simpl in H. injection H as <-.
        apply (cartopy_projection_raises _ _ _ _ _ _ _ Hp Hm).
      * simpl in H. injection H as <-. exfalso. revert Hm.
        apply builtin_not_module. apply (rb_color_axis _ _ _ Hca).
Qed.

Lemma module_errors_witness :
  plot_map mpl_date2num pi_355_113 cos_taylor4 8 6
    "unknown" [10; 20] [30; 40] (CSeq [Num 1; Num 2]) (PStr "cyl") None
    = Raise (ValueError
        "The method argument must be either 'basemap' or 'cartopy', not 'unknown'.") /\
  plot_basemap mpl_date2num pi_355_113 cos_taylor4 8 6
    [10; 20] [30; 40] (CSeq [Num 1; Num 2]) (PStr "merc") None
    = Raise (ValueError "Projection 'merc' not supported.").
Proof.
  pose proof (module_errors mpl_date2num pi_355_113
                cos_taylor4 8 6 [10; 20] [30; 40] (CSeq [Num 1; Num 2]) None)
    as (H1 & H2 & _).
  split.
  - apply (H1 "unknown"%string (PStr "cyl")); discriminate.
  - apply (H2 (PStr "merc") (Num 1, Num 2, false, CSeq [Num 1; Num 2]));
      reflexivity.
Defined.

(** ** Timestamp colours *)

Lemma mapM_date2num_stamps date2num ts :
  mapM (date2num_item date2num) (map Stamp ts)
  = OK (map (fun t => Num (date2num t)) ts).
Proof.
  induction ts as [|t ts IH]; simpl; [reflexivity|].
  rewrite IH. reflexivity.
Qed.

Section OrderEmbedding.

Variable date2num : Z -> Q.
Hypothesis date2num_increasing :
  forall s t, (s < t)%Z -> date2num s < date2num t.




End OrderEmbedding.

Lemma plot_convert date2num np_pi np_cos fig_w fig_h lons lats color
    projection colorbar pl :
  plot_basemap date2num np_pi np_cos fig_w fig_h
    lons lats color projection colorbar = OK pl \/
  plot_cartopy date2num fig_w fig_h
    lons lats color projection colorbar = OK pl ->
  exists l,
    items color = OK l /\
    cv_min l = OK (fst (norm pl)) /\
    cv_max l = OK (snd (norm pl)) /\
    convert_color date2num color = OK (datetimeplot pl, scatter_c pl).
Proof.
  assert (forall ca, color_axis date2num color = OK ca ->
            exists l, items color = OK l /\
              cv_min l = OK (fst (fst (fst ca))) /\
              cv_max l = OK (snd (fst (fst ca))) /\
              convert_color date2num color = OK (snd (fst ca), snd ca)) as Hax.
  { intros ca H. unfold color_axis in H.
    inv_bind H. inv_bind H. inv_bind H. inv_bind H. destruct v2 as [f c].
    injection H as <-. simpl. exists v. auto. }
  intros [H|H].
  - unfold plot_basemap in H. inv_bind H.
    destruct v as [[[cmin cmax] flag] color']. inv_bind H. injection H as <-.
    apply (Hax _ Hv).
  - unfold plot_cartopy in H. inv_bind H.
    destruct v as [[[cmin cmax] flag] color']. inv_bind H. injection H as <-.
    apply (Hax _ Hv).
Qed.




(** ** Normalisation bounds *)

Lemma cv_min_from_stamps ts : forall m,
  exists r,
    cv_min_from (Stamp m) (map Stamp ts) = OK (Stamp r) /\
    In r (m :: ts) /\ (r <= m)%Z /\ Forall (fun u => (r <= u)%Z) ts.
Proof.
  induction ts as [|t ts IH]; intro m; simpl.
  - exists m. repeat split; [auto | lia | constructor].
  - destruct (t <? m)%Z eqn:E.
    + apply Z.ltb_lt in E. destruct (IH t) as (r & H1 & H2 & H3 & H4).
      exists r. repeat split; [assumption | | lia | ].
      * destruct H2 as [<-|H2]; auto.
      * constructor; assumption.
    + apply Z.ltb_ge in E. destruct (IH m) as (r & H1 & H2 & H3 & H4).
      exists r. repeat split; [assumption | | lia | ].
      * destruct H2 as [<-|H2]; auto.
      * constructor; [lia | assumption].
Qed.

Lemma cv_max_from_stamps ts : forall m,
  exists r,
    cv_max_from (Stamp m) (map Stamp ts) = OK (Stamp r) /\
    In r (m :: ts) /\ (m <= r)%Z /\ Forall (fun u => (u <= r)%Z) ts.
Proof.
  induction ts as [|t ts IH]; intro m; simpl.
  - exists m. repeat split; [auto | lia | constructor].
  - destruct (m <? t)%Z eqn:E.
    + apply Z.ltb_lt in E. destruct (IH t) as (r & H1 & H2 & H3 & H4).
      exists r. repeat split; [assumption | | lia | ].
      * destruct H2 as [<-|H2]; auto.
      * constructor; assumption.
    + apply Z.ltb_ge in E. destruct (IH m) as (r & H1 & H2 & H3 & H4).
      exists r. repeat split; [assumption | | lia | ].
      * destruct H2 as [<-|H2]; auto.
      * constructor; [lia | assumption].
Qed.

(** C10: the arguments of [Normalize] are [min] and [max] of the colour
    argument as it was passed in; for timestamp colours they are the
    earliest and latest timestamp themselves, while [scatter] receives
    the [date2num] values; this holds for every plan either renderer
    returns. *)
Theorem norm_bounds_from_raw_colors date2num :
  (forall t ts,
      exists tmin tmax,
        In tmin (t :: ts) /\ In tmax (t :: ts) /\
        Forall (fun u => (tmin <= u <= tmax)%Z) (t :: ts) /\
        color_axis date2num (CSeq (map Stamp (t :: ts)))
        = OK (Stamp tmin, Stamp tmax, true,
              CSeq (map (fun u => Num (date2num u)) (t :: ts)))) /\
  (forall np_pi np_cos fig_w fig_h lons lats color projection colorbar pl,
      plot_basemap date2num np_pi np_cos fig_w fig_h
        lons lats color projection colorbar = OK pl \/
      plot_cartopy date2num fig_w fig_h
        lons lats color projection colorbar = OK pl ->
      exists l,
        items color = OK l /\
        cv_min l = OK (fst (norm pl)) /\
        cv_max l = OK (snd (norm pl)) /\
        convert_color date2num color = OK (datetimeplot pl, scatter_c pl)).
Proof.
  split.
  - intros t ts.
    destruct (cv_min_from_stamps ts t) as (tmin & Hmin & Imin & Lmin & Fmin).
    destruct (cv_max_from_stamps ts t) as (tmax & Hmax & Imax & Lmax & Fmax).
    exists tmin, tmax. split; [assumption|]. split; [assumption|]. split.
    + constructor; [lia|]. rewrite Forall_forall in *. intros u Hu.
      split; [apply Fmin | apply Fmax]; assumption.
    + unfold color_axis. cbn [items bind map cv_min cv_max].
      rewrite Hmin. cbn [bind]. rewrite Hmax. cbn [bind].
      unfold convert_color. cbn [items bind is_stamp].
      change (Stamp t :: map Stamp ts) with (map Stamp (t :: ts)).
      rewrite mapM_date2num_stamps. reflexivity.
  - intros. eapply plot_convert. eassumption.
Qed.

Lemma norm_bounds_from_raw_colors_witness :
  exists l,
    items (CSeq [Stamp 86400000000; Stamp 0]) = OK l /\
    cv_min l = OK (Stamp 0) /\
    cv_max l = OK (Stamp 86400000000).
Proof.
  destruct (proj2 (norm_bounds_from_raw_colors mpl_date2num)
              pi_355_113 cos_taylor4 8 6 [10; 20] [30; 40]
              (CSeq [Stamp 86400000000; Stamp 0]) (PStr "cyl") None _
              (or_intror eq_refl))
    as (l & H1 & H2 & H3 & _).
  exists l. split; [exact H1|]. split; [exact H2 | exact H3].
Defined.

(** ** The numeric primitives meet their mathematical reading *)

Lemma ilog10_aux_spec : forall (fuel : nat) (n : Z),
  (1 <= n)%Z -> (n < 10 ^ Z.of_nat fuel)%Z ->
  (0 <= Py.ilog10_aux fuel n /\
   10 ^ Py.ilog10_aux fuel n <= n < 10 ^ (Py.ilog10_aux fuel n + 1))%Z.
Proof.
  induction fuel as [|fuel IH]; intros n H1 Hlt.
  - simpl in Hlt. lia.
  - cbn [Py.ilog10_aux]. destruct (n <? 10)%Z eqn:E.
    + apply Z.ltb_lt in E. simpl. lia.
    + apply Z.ltb_ge in E.
      rewrite Nat2Z.inj_succ, Z.pow_succ_r in Hlt by lia.
      assert (1 <= n / 10)%Z as Hq by (apply Z.div_le_lower_bound; lia).
      assert (n / 10 < 10 ^ Z.of_nat fuel)%Z as Hu
          by (apply Z.div_lt_upper_bound; lia).
      destruct (IH (n / 10)%Z Hq Hu) as (R0 & Rlo & Rhi).
      set (r := Py.ilog10_aux fuel (n / 10)) in *.
      pose proof (Z.div_mod n 10 ltac:(lia)) as Hdm.
      pose proof (Z.mod_pos_bound n 10 ltac:(lia)) as Hmod.
      replace (1 + r + 1)%Z with (Z.succ (r + 1)) by lia.
      replace (1 + r)%Z with (Z.succ r) by lia.
      rewrite !Z.pow_succ_r by lia. lia.
Qed.

Lemma ilog10_spec (n : Z) :
  (1 <= n)%Z ->
  (0 <= Py.ilog10 n /\ 10 ^ Py.ilog10 n <= n < 10 ^ (Py.ilog10 n + 1))%Z.
Proof.
  intro H. unfold Py.ilog10. apply ilog10_aux_spec; [assumption|].
  pose proof (Z.log2_nonneg n) as Hl.
  destruct (Z.log2_spec n ltac:(lia)) as [_ Hhi].
  rewrite Nat2Z.inj_succ, Z2Nat.id by assumption.
  apply Z.lt_le_trans with (1 := Hhi).
  apply Z.pow_le_mono_l. lia.
Qed.

Lemma frac_le (a b c d : Q) :
  0 < b -> 0 < d -> a * d <= c * b -> a / b <= c / d.
Proof.
  intros Hb Hd H. apply Qle_shift_div_l; [assumption|].
  assert (a / b * d == a * d / b) as -> by (field; lra).
  apply Qle_shift_div_r; assumption.
Qed.

Lemma frac_lt (a b c d : Q) :
  0 < b -> 0 < d -> a * d < c * b -> a / b < c / d.
Proof.
  intros Hb Hd H. apply Qlt_shift_div_l; [assumption|].
  assert (a / b * d == a * d / b) as -> by (field; lra).
  apply Qlt_shift_div_r; assumption.
Qed.

Lemma ten_pow_succ (e : Z) : 10 ^ (e + 1) == 10 ^ e * 10.
Proof. rewrite Qpower_plus by discriminate. reflexivity. Qed.

Lemma ten_pow_pos (e : Z) : 0 < 10 ^ e.
Proof. apply Qpower_0_lt. reflexivity. Qed.

Lemma ilog10_bracket_Q (n : Z) :
  (1 <= n)%Z ->
  10 ^ Py.ilog10 n <= inject_Z n /\ inject_Z n < 10 ^ Py.ilog10 n * 10.
Proof.
  intro H. destruct (ilog10_spec n H) as (H0 & Hlo & Hhi).
  rewrite Z.add_1_r, Z.pow_succ_r in Hhi by assumption.
  rewrite Zle_Qle in Hlo. rewrite Zlt_Qlt in Hhi.
  rewrite inject_Z_mult in Hhi.
  rewrite Zpower_Qpower in Hlo, Hhi by assumption.
  change (inject_Z 10) with 10 in *. split; lra.
Qed.

(** [floor_log10 y] is the decimal order of magnitude of a positive [y]. *)
Lemma floor_log10_spec (y : Q) :
  0 < y ->
  10 ^ Py.floor_log10 y <= y /\ y < 10 ^ (Py.floor_log10 y + 1).
Proof.
  intro Hy. destruct y as [p q]. unfold Py.floor_log10. cbn [Qnum Qden].
  assert (1 <= p)%Z as Hp.
  { unfold Qlt in Hy. simpl in Hy. lia. }
  destruct (ilog10_bracket_Q p Hp) as [Pa Pb].
  destruct (ilog10_bracket_Q (Zpos q) ltac:(lia)) as [Da Db].
  set (a := Py.ilog10 p) in *. set (b := Py.ilog10 (Zpos q)) in *.
  pose proof (ten_pow_pos a) as HA. pose proof (ten_pow_pos b) as HB.
  assert (0 < inject_Z (Z.pos q)) as HD by lra.
  assert (p # q == inject_Z p / inject_Z (Zpos q)) as Ey
      by apply Qmake_Qdiv.
  assert (10 ^ (a - b) == 10 ^ a / 10 ^ b) as Ee
      by (apply Qpower_minus; discriminate).
  destruct (Qle_bool (10 ^ (a - b)) (p # q)) eqn:E.
  - apply Qle_bool_iff in E. split; [assumption|].
    rewrite ten_pow_succ, Ee, Ey.
    assert (10 ^ a / 10 ^ b * 10 == (10 ^ a * 10) / 10 ^ b) as ->
        by (field; lra).
    apply frac_lt; [assumption | assumption | nra].
  - assert (p # q < 10 ^ (a - b)) as Hlt.
    { apply Qnot_le_lt. intro Hle. apply Qle_bool_iff in Hle. congruence. }
    replace (a - b - 1 + 1)%Z with (a - b)%Z by lia.
    split; [|assumption].
    assert (10 ^ (a - b - 1) == 10 ^ a / (10 ^ b * 10)) as ->.
    { replace (a - b - 1)%Z with (a - (b + 1))%Z by lia.
      rewrite Qpower_minus by discriminate. rewrite ten_pow_succ.
      reflexivity. }
    rewrite Ey. apply frac_le; [lra | assumption | nra].
Qed.

(** [round_neg_log10 x] is [-log10 x] rounded to the nearest integer:
    [10^(-k-1/2) <= x < 10^(-k+1/2)], stated on squares. *)
Lemma round_neg_log10_spec (x : Q) :
  0 < x ->
  exists k,
    Py.round_neg_log10 x = OK k /\
    10 ^ (- 2 * k - 1) <= x * x /\ x * x < 10 ^ (- 2 * k + 1).
Proof.
  intro Hx. unfold Py.round_neg_log10.
  assert (Qeq_bool x 0 = false) as ->.
  { destruct (Qeq_bool x 0) eqn:E; [|reflexivity].
    apply Qeq_bool_iff in E. lra. }
  assert (Qle_bool x 0 = false) as ->.
  { destruct (Qle_bool x 0) eqn:E; [|reflexivity].
    apply Qle_bool_iff in E. lra. }
  eexists. split; [reflexivity|].
  assert (0 < x * x) as Hy by nra.
  destruct (floor_log10_spec (x * x) Hy) as [Hlo Hhi].
  set (m := Py.floor_log10 (x * x)) in *.
  pose proof (Z.div_mod (m + 1) 2 ltac:(lia)) as Hdm.
  pose proof (Z.mod_pos_bound (m + 1) 2 ltac:(lia)) as Hmod.
  set (q := ((m + 1) / 2)%Z) in *.
  assert (1 <= 10) as H10 by discriminate.
  assert ((m + 1) mod 2 = 0 \/ (m + 1) mod 2 = 1)%Z as [Hr|Hr] by lia.
  - replace (- 2 * - q - 1)%Z with m by lia.
    split; [assumption|].
    apply Qlt_le_trans with (1 := Hhi).
    apply Qpower_le_compat_l; [lia | assumption].
  - replace (- 2 * - q + 1)%Z with (m + 1)%Z by lia.
    split; [|assumption].
    apply Qle_trans with (2 := Hlo).
    apply Qpower_le_compat_l; [lia | assumption].
Qed.

(** [Py.round] is within one half of its argument and resolves a tie to
    the even neighbour. *)
Lemma round_spec (x : Q) :
  inject_Z (Py.round x) - (1 # 2) <= x /\
  x <= inject_Z (Py.round x) + (1 # 2) /\
  (x - inject_Z (Qfloor x) == 1 # 2 -> Z.even (Py.round x) = true).
Proof.
  pose proof (Qfloor_le x) as Hlo. pose proof (Qlt_floor x) as Hhi.
  rewrite inject_Z_plus in Hhi. change (inject_Z 1) with 1 in Hhi.
  unfold Py.round.
  destruct (Qcompare (x - inject_Z (Qfloor x)) (1 # 2)) eqn:E.
  - apply Qeq_alt in E. destruct (Z.even (Qfloor x)) eqn:Ev.
    + repeat split; [lra | lra | intros _; exact Ev].
    + rewrite inject_Z_plus. change (inject_Z 1) with 1.
      repeat split; [lra | lra |]. intros _.
      rewrite Z.even_add, Ev. reflexivity.
  - apply Qlt_alt in E. repeat split; [lra | lra | intro H; lra].
  - apply Qgt_alt in E. rewrite inject_Z_plus. change (inject_Z 1) with 1.
    repeat split; [lra | lra | intro H; lra].
Qed.

(** [a % 360] lies in [[0, 360)] and differs from [a] by a multiple of
    360. *)
Lemma mod360_spec (a : Q) :
  0 <= Py.mod360 a /\ Py.mod360 a < 360 /\
  a == Py.mod360 a + inject_Z (Qfloor (a / 360)) * 360.
Proof.
  unfold Py.mod360.
  pose proof (Qfloor_le (a / 360)) as Hlo.
  pose proof (Qlt_floor (a / 360)) as Hhi.
  rewrite inject_Z_plus in Hhi. change (inject_Z 1) with 1 in Hhi.
  assert (a == a / 360 * 360) as E by field.
  revert Hlo Hhi E. generalize (inject_Z (Qfloor (a / 360))) (a / 360).
  intros f d Hlo Hhi E. repeat split; lra.
Qed.

(** * Further properties of the module *)

(** ** [linspace2] on every proper range *)

Lemma round_bracket (y : Q) :
  0 < y -> 4 # 10 <= y * y -> y * y < 40 ->
  (1 <= Py.round y <= 6)%Z /\
  inject_Z (Py.round y) - (1 # 2) <= y /\
  y <= inject_Z (Py.round y) + (1 # 2).
Proof.
  intros Hy Hlo Hhi. destruct (round_spec y) as (H1 & H2 & _).
  split; [|split; assumption].
  assert (1 # 2 < y) as Hhalf by nra.
  assert (y < 13 # 2) as Hup by nra.
  assert (inject_Z 0 < inject_Z (Py.round y)) as Hm0
      by (change (inject_Z 0) with 0; lra).
  assert (inject_Z (Py.round y) < inject_Z 7) as Hm7
      by (change (inject_Z 7) with 7; lra).
  rewrite <- Zlt_Qlt in Hm0, Hm7. lia.
Qed.

Lemma ten_pow_sq (k : Z) : 10 ^ (- k) * 10 ^ (- k) == 10 ^ (- 2 * k).
Proof.
  rewrite <- Qpower_plus by discriminate.
  replace (- k + - k)%Z with (- 2 * k)%Z by lia. reflexivity.
Qed.

Lemma scaled_square_bracket (x u : Q) (k : Z) :
  0 < x -> u == 10 ^ (- k) ->
  10 ^ (- 2 * k - 1) <= x * x -> x * x < 10 ^ (- 2 * k + 1) ->
  0 < u /\ 0 < 2 * x / u /\
  4 # 10 <= (2 * x / u) * (2 * x / u) /\ (2 * x / u) * (2 * x / u) < 40.
Proof.
  intros Hx Hu Hlo Hhi.
  assert (0 < u) as Hu0 by (rewrite Hu; apply ten_pow_pos).
  assert (u * u == 10 ^ (- 2 * k)) as Huu by (rewrite Hu; apply ten_pow_sq).
  assert (10 ^ (- 2 * k + 1) == u * u * 10) as E1
      by (rewrite ten_pow_succ, Huu; reflexivity).
  assert (10 ^ (- 2 * k - 1) * 10 == u * u) as E0.
  { rewrite Huu. rewrite <- ten_pow_succ.
    replace (- 2 * k - 1 + 1)%Z with (- 2 * k)%Z by lia. reflexivity. }
  rewrite E1 in Hhi.
  assert (u * u <= x * x * 10) as Hlo' by (rewrite <- E0; lra).
  assert (0 < u * u) as Hsq by nra.
  set (y := 2 * x / u).
  assert (y * u == 2 * x) as Ey by (unfold y; field; lra).
  assert (0 < y) as Hy.
  { unfold y. apply Qlt_shift_div_l; [assumption | lra]. }
  assert (y * y * (u * u) == 4 * (x * x)) as Eyy.
  { transitivity ((y * u) * (y * u)); [ring|]. rewrite Ey. ring. }
  split; [assumption|]. split; [assumption|]. split.
  - apply Qnot_lt_le. intro Hc.
    assert (y * y * (u * u) < (4 # 10) * (u * u)) as Hc'
        by (apply Qmult_lt_compat_r; assumption).
    lra.
  - apply Qnot_le_lt. intro Hc.
    assert (40 * (u * u) <= y * y * (u * u)) as Hc'
        by (apply Qmult_le_compat_r; lra).
    lra.
Qed.

(** The tick spacing on a proper range: a positive number of the form
    [m * 10^e / 2] with [m] between 1 and 6, [m] being [2 * range / N]
    in units of [10^e], rounded. *)
Lemma linspace2_delta_spec (val1 val2 : Q) (N : Z) :
  val1 < val2 -> (0 < N)%Z ->
  exists d m u,
    linspace2_delta val1 val2 N = OK d /\
    (exists e : Z, u == 10 ^ e) /\ 0 < u /\
    d == inject_Z m * u / 2 /\ (1 <= m <= 6)%Z /\
    inject_Z m - (1 # 2) <= 2 * ((val2 - val1) / inject_Z N) / u /\
    2 * ((val2 - val1) / inject_Z N) / u <= inject_Z m + (1 # 2).
Proof.
  intros Hv HN.
  assert (0 < inject_Z N) as HNq
      by (change 0 with (inject_Z 0); rewrite <- Zlt_Qlt; exact HN).
  set (x := (val2 - val1) / inject_Z N).
  assert (0 < x) as Hx
      by (unfold x; apply Qlt_shift_div_l; [assumption | lra]).
  assert (1 * (val2 - val1) / inject_Z N == x) as Ex by (unfold x; field; lra).
  unfold linspace2_delta, Py.div.
  assert (Qeq_bool (inject_Z N) 0 = false) as ->.
  { destruct (Qeq_bool (inject_Z N) 0) eqn:E; [|reflexivity].
    apply Qeq_bool_iff in E. lra. }
  cbn [bind].
  destruct (round_neg_log10_spec (1 * (val2 - val1) / inject_Z N))
    as (k & Hk & Hlo & Hhi); [rewrite Ex; assumption|].
  rewrite Hk. cbn [bind]. rewrite Ex in Hlo, Hhi.
  destruct (k <? 0)%Z eqn:Ek.
  - apply Z.ltb_lt in Ek.
    set (factor := inject_Z (10 ^ Z.abs k)).
    assert (factor == 10 ^ (- k)) as Ef.
    { unfold factor. rewrite Zpower_Qpower by lia.
      replace (Z.abs k) with (- k)%Z by lia. reflexivity. }
    destruct (scaled_square_bracket x factor k Hx Ef Hlo Hhi)
      as (Hu0 & Hy0 & Hy1 & Hy2).
    set (y := 2 * (val2 - val1) / inject_Z N / factor).
    assert (y == 2 * x / factor) as Ey by (unfold y, x; field; lra).
    rewrite <- Ey in Hy0, Hy1, Hy2.
    destruct (round_bracket y Hy0 Hy1 Hy2) as (Hm & Hr1 & Hr2).
    eexists. exists (Py.round y), factor.
    split; [reflexivity|]. split; [exists (- k)%Z; exact Ef|].
    split; [assumption|]. split; [reflexivity|]. split; [assumption|].
    fold x. rewrite <- Ey. split; assumption.
  - apply Z.ltb_ge in Ek.
    set (p := inject_Z (10 ^ k)).
    assert (p == 10 ^ k) as Ep
        by (unfold p; rewrite Zpower_Qpower by lia; reflexivity).
    assert (0 < p) as Hp by (rewrite Ep; apply ten_pow_pos).
    assert (/ p == 10 ^ (- k)) as Eu by (rewrite Ep, Qpower_opp; reflexivity).
    assert (0 < / p) as Hip by (apply Qinv_lt_0_compat; assumption).
    destruct (scaled_square_bracket x (/ p) k Hx Eu Hlo Hhi)
      as (Hu0 & Hy0 & Hy1 & Hy2).
    set (y := 2 * (val2 - val1) / inject_Z N * p).
    assert (y == 2 * x / / p) as Ey by (unfold y, x; field; lra).
    rewrite <- Ey in Hy0, Hy1, Hy2.
    destruct (round_bracket y Hy0 Hy1 Hy2) as (Hm & Hr1 & Hr2).
    eexists. exists (Py.round y), (/ p).
    split; [reflexivity|]. split; [exists (- k)%Z; exact Eu|].
    split; [assumption|]. split.
    + unfold Py.round_to. fold p. fold y. field. lra.
    + split; [assumption|]. fold x. rewrite <- Ey. split; assumption.
Qed.

Lemma delta_vs_step (x u d : Q) (m : Z) :
  0 < u -> d == inject_Z m * u / 2 -> (1 <= m)%Z ->
  inject_Z m - (1 # 2) <= 2 * x / u -> 2 * x / u <= inject_Z m + (1 # 2) ->
  0 < d /\ (2 # 3) * x <= d /\ d <= 2 * x.
Proof.
  intros Hu Hd Hm H1 H2.
  assert (1 <= inject_Z m) as Hmq
      by (change 1 with (inject_Z 1); rewrite <- Zle_Qle; exact Hm).
  assert (2 * x / u * u == 2 * x) as Ey by (field; lra).
  assert (2 * d == inject_Z m * u) as Ed by (rewrite Hd; field).
  revert H1 H2 Ey. generalize (2 * x / u). intros y H1 H2 Ey.
  revert Hmq Ed H1 H2. generalize (inject_Z m). intros mq Hmq Ed H1 H2.
  assert ((mq - (1 # 2)) * u <= y * u) as A1
      by (apply Qmult_le_compat_r; lra).
  assert (y * u <= (mq + (1 # 2)) * u) as A2
      by (apply Qmult_le_compat_r; lra).
  assert (1 * u <= mq * u) as A3 by (apply Qmult_le_compat_r; lra).
  repeat split; lra.
Qed.

Lemma inject_Z_sub (x y : Z) : inject_Z (x - y) = inject_Z x - inject_Z y.
Proof.
  rewrite <- Z.add_opp_r, inject_Z_plus, inject_Z_opp. reflexivity.
Qed.

Lemma trunc_inject (x : Q) (z : Z) : x == inject_Z z -> Np.trunc x = z.
Proof.
  destruct x as [p q]. unfold Qeq, Np.trunc. simpl. intro H.
  rewrite Z.mul_1_r in H. subst p. apply Z.quot_mul. discriminate.
Qed.

Lemma Forall2_Qeq_map (f g : nat -> Q) (l : list nat) :
  (forall i, f i == g i) -> Forall2 Qeq (map f l) (map g l).
Proof.
  intro H. induction l as [|i l IH]; simpl; constructor; [apply H | exact IH].
Qed.

(** [np.linspace] over a range that is a whole number of steps. *)
Lemma linspace_steps (start stop num d : Q) (n : Z) :
  num == inject_Z n -> ~ d == 0 ->
  stop - start == inject_Z (n - 1) * d ->
  Forall2 Qeq (Np.linspace start stop num)
    (map (fun i => start + inject_Z (Z.of_nat i) * d) (seq 0 (Z.to_nat n))).
Proof.
  intros Hn Hd Hs. unfold Np.linspace. rewrite (trunc_inject _ _ Hn).
  destruct (n <=? 0)%Z eqn:E0.
  - apply Z.leb_le in E0. replace (Z.to_nat n) with 0%nat by lia. constructor.
  - apply Z.leb_gt in E0. destruct (n =? 1)%Z eqn:E1.
    + apply Z.eqb_eq in E1. subst n. simpl. constructor; [|constructor].
      change (inject_Z 0) with 0. ring.
    + apply Z.eqb_neq in E1. apply Forall2_Qeq_map. intro i.
      assert (0 < inject_Z (n - 1)) as Hpos.
      { change 0 with (inject_Z 0). rewrite <- Zlt_Qlt. lia. }
      assert ((stop - start) / inject_Z (n - 1) == d) as ->.
      { rewrite Hs. field. lra. }
      ring.
Qed.





Lemma Forall2_Qeq_trans (l1 l2 l3 : list Q) :
  Forall2 Qeq l1 l2 -> Forall2 Qeq l2 l3 -> Forall2 Qeq l1 l3.
Proof.
  intro H. revert l3. induction H as [|a b l1 l2 Hab H IH]; intros l3 H3.
  - inversion H3. constructor.
  - inversion H3 as [|? c ? l3' Hbc H3']; subst.
    constructor; [rewrite Hab; exact Hbc | apply IH; exact H3'].
Qed.

(** The ticks as the run of multiples of [delta] from [ceil(val1/delta)]
    to [floor(val2/delta)]. *)
Lemma linspace2_ticks_spec (val1 val2 : Q) (N : Z) :
  val1 < val2 -> (0 < N)%Z ->
  exists d ticks,
    linspace2_delta val1 val2 N = OK d /\ 0 < d /\
    (2 # 3) * ((val2 - val1) / inject_Z N) <= d /\
    d <= 2 * ((val2 - val1) / inject_Z N) /\
    linspace2 val1 val2 N = OK ticks /\
    Forall2 Qeq ticks
      (map (fun i => inject_Z (Qceiling (val1 / d) + Z.of_nat i) * d)
         (seq 0 (Z.to_nat (Qfloor (val2 / d) - Qceiling (val1 / d) + 1)))).
Proof.
  intros Hv HN.
  destruct (linspace2_delta_spec val1 val2 N Hv HN)
    as (d & m & u & Hd & _ & Hu & Ed & Hm & H1 & H2).
  destruct (delta_vs_step _ u d m Hu Ed ltac:(lia) H1 H2) as (Hpos & Hlo & Hhi).
  exists d. eexists. split; [exact Hd|]. split; [exact Hpos|].
  split; [exact Hlo|]. split; [exact Hhi|].
  assert (Qeq_bool d 0 = false) as Hz.
  { destruct (Qeq_bool d 0) eqn:E; [|reflexivity].
    apply Qeq_bool_iff in E. lra. }
  unfold linspace2. rewrite Hd. cbn [bind]. unfold Py.div. rewrite Hz.
  cbn [bind]. split; [reflexivity|].
  unfold Np.ceil, Np.floor.
  set (ka := Qceiling (val1 / d)). set (kb := Qfloor (val2 / d)).
  eapply Forall2_Qeq_trans.
  - apply (linspace_steps _ _ _ d (kb - ka + 1)).
    + rewrite inject_Z_plus, inject_Z_sub. change (inject_Z 1) with 1.
      field. lra.
    + lra.
    + replace (kb - ka + 1 - 1)%Z with (kb - ka)%Z by lia.
      rewrite inject_Z_sub. ring.
  - apply Forall2_Qeq_map. intro i. rewrite inject_Z_plus. ring.
Qed.














(** X1: With a positive count, [linspace2] has a result exactly on a proper
    range: an empty or reversed range has no logarithm to round. *)
Theorem linspace2_returns_iff (val1 val2 : Q) (N : Z) :
  (0 < N)%Z ->
  ((exists ticks, linspace2 val1 val2 N = OK ticks) <-> val1 < val2).
Proof.
  intro HN. split.
  - intros [ticks H]. apply Qnot_le_lt. intro Hle.
    assert (0 < inject_Z N) as HNq
        by (change 0 with (inject_Z 0); rewrite <- Zlt_Qlt; exact HN).
    unfold linspace2, linspace2_delta, Py.div in H.
    assert (Qeq_bool (inject_Z N) 0 = false) as Hz.
    { destruct (Qeq_bool (inject_Z N) 0) eqn:E; [|reflexivity].
      apply Qeq_bool_iff in E. lra. }
    rewrite Hz in H. cbn [bind] in H. unfold Py.round_neg_log10 in H.
    destruct (Qeq_bool (1 * (val2 - val1) / inject_Z N) 0); [discriminate|].
    assert (Qle_bool (1 * (val2 - val1) / inject_Z N) 0 = true) as Hneg.
    { apply Qle_bool_iff. apply Qle_shift_div_r; [assumption | lra]. }
    rewrite Hneg in H. discriminate.
  - intro Hv.
    destruct (linspace2_ticks_spec val1 val2 N Hv HN)
      as (d & ticks & _ & _ & _ & _ & Hrun & _).
    exists ticks. exact Hrun.
Qed.

Lemma linspace2_returns_iff_witness :
  ~ exists ticks, linspace2 5 5 8 = OK ticks.
Proof.
  intro H. apply (proj1 (linspace2_returns_iff 5 5 8 ltac:(reflexivity))) in H.
  revert H. vm_compute. discriminate.
Defined.

(** ** The resolution tables *)

Lemma dict_get_in (d : list (string * string)) (k v : string) :
  dict_get d k = Some v -> In (k, v) d.
Proof.
  induction d as [|[k' v'] d IH]; simpl; [discriminate|].
  destruct (String.eqb k k') eqn:E.
  - apply String.eqb_eq in E. subst k'. intro H. injection H as ->.
    left. reflexivity.
  - intro H. right. apply IH. exact H.
Qed.

Ltac each_entry H tac :=
  simpl in H;
  repeat (destruct H as [H|H]; [injection H as <- <-; tac|]);
  destruct H.

(** X10: Either vocabulary is accepted by either table: the two tables have
    the same keys, the Basemap table answers in letter codes and leaves a
    letter code as it is, the Cartopy table answers in scale strings and
    leaves a scale string as it is, and translating a key to a letter
    code first does not change its scale string. *)
Theorem resolution_tables_agree (k : string) :
  ((exists v, dict_get _BASEMAP_RESOLUTIONS k = Some v) <->
   (exists v, dict_get _CARTOPY_RESOLUTIONS k = Some v)) /\
  (forall v, dict_get _BASEMAP_RESOLUTIONS k = Some v ->
             In v ["c"; "l"; "i"; "h"; "f"]%string /\
             dict_get _BASEMAP_RESOLUTIONS v = Some v /\
             dict_get _CARTOPY_RESOLUTIONS v = dict_get _CARTOPY_RESOLUTIONS k) /\
  (forall v, dict_get _CARTOPY_RESOLUTIONS k = Some v ->
             In v ["110m"; "50m"; "10m"]%string /\
             dict_get _CARTOPY_RESOLUTIONS v = Some v).
Proof.
  split; [split|split].
  - intros [v H]. apply dict_get_in in H.
    each_entry H ltac:(eexists; reflexivity).
  - intros [v H]. apply dict_get_in in H.
    each_entry H ltac:(eexists; reflexivity).
  - intros v H. apply dict_get_in in H.
    each_entry H ltac:(split; [simpl; tauto | split; reflexivity]).
  - intros v H. apply dict_get_in in H.
    each_entry H ltac:(split; [simpl; tauto | reflexivity]).
Qed.

Lemma resolution_tables_agree_witness :
  dict_get _CARTOPY_RESOLUTIONS "i" = dict_get _CARTOPY_RESOLUTIONS "50m".
Proof.
  destruct (resolution_tables_agree "50m") as (_ & H & _).
  destruct (H "i"%string eq_refl) as (_ & _ & E). exact E.
Defined.

(** ** The axes layout *)



(** ** Gridlines of the ['local'] projection *)




Lemma wrap180_cases (t : Q) :
  (wrap180 t = t \/ wrap180 t = t - 360) /\ (t <= 540 -> wrap180 t <= 180).
Proof.
  unfold wrap180. destruct (Py.Qltb 180 t) eqn:E.
  - apply Qltb_true in E. split; [right; reflexivity | intro H; lra].
  - apply Qltb_false in E. split; [left; reflexivity | intro H; lra].
Qed.



(** ** The centre and the extent across the antimeridian *)

Lemma min_from_in (l : list Q) (x : Q) : In (Py.min_from x l) (x :: l).
Proof.
  revert x. induction l as [|y l IH]; intro x; simpl; [auto|].
  destruct (Py.Qltb y x).
  - right. apply IH.
  - destruct (IH x) as [H|H]; [left | right; right]; exact H.
Qed.

Lemma max_from_in (l : list Q) (x : Q) : In (Py.max_from x l) (x :: l).
Proof.
  revert x. induction l as [|y l IH]; intro x; simpl; [auto|].
  destruct (Py.Qltb x y).
  - right. apply IH.
  - destruct (IH x) as [H|H]; [left | right; right]; exact H.
Qed.

Lemma min_in (l : list Q) (m : Q) : Py.min l = OK m -> In m l.
Proof.
  destruct l as [|x l]; simpl; [discriminate|].
  intro H. injection H as <-. apply min_from_in.
Qed.

Lemma max_in (l : list Q) (m : Q) : Py.max l = OK m -> In m l.
Proof.
  destruct l as [|x l]; simpl; [discriminate|].
  intro H. injection H as <-. apply max_from_in.
Qed.

Lemma lon_bounds_cases (lons : list Q) (M m : Q) :
  lon_bounds lons = OK (M, m) ->
  (straddles lons = OK false /\ Py.max lons = OK M /\ Py.min lons = OK m) \/
  (straddles lons = OK true /\
   Py.max (map Py.mod360 lons) = OK M /\ Py.min (map Py.mod360 lons) = OK m).
Proof.
  unfold lon_bounds. intro H. inv_bind H. destruct v.
  - inv_bind H. inv_bind H. injection H as <- <-. right. auto.
  - inv_bind H. inv_bind H. injection H as <- <-. left. auto.
Qed.

(** Every longitude lies between the bounds, up to whole turns. *)
Lemma lon_bounds_cover (lons : list Q) (M m lon : Q) :
  lon_bounds lons = OK (M, m) -> In lon lons ->
  exists k : Z, m <= lon + 360 * inject_Z k /\ lon + 360 * inject_Z k <= M.
Proof.
  intros Hb Hin. destruct (lon_bounds_cases _ _ _ Hb) as [(_ & HM & Hm)|(_ & HM & Hm)].
  - exists 0%Z. change (inject_Z 0) with 0.
    pose proof (min_lower_bound _ _ Hm) as L. pose proof (max_upper_bound _ _ HM) as U.
    rewrite Forall_forall in L, U. specialize (L _ Hin). specialize (U _ Hin).
    split; lra.
  - exists (- Qfloor (lon / 360))%Z. rewrite inject_Z_opp.
    pose proof (min_lower_bound _ _ Hm) as L. pose proof (max_upper_bound _ _ HM) as U.
    rewrite Forall_forall in L, U.
    assert (In (Py.mod360 lon) (map Py.mod360 lons)) as Hin' by (apply in_map; exact Hin).
    specialize (L _ Hin'). specialize (U _ Hin'). unfold Py.mod360 in L, U.
    split; lra.
Qed.

Lemma local_center_of_bounds (lons lats : list Q) (M m mnlat mxlat : Q) :
  lon_bounds lons = OK (M, m) ->
  Py.min lats = OK mnlat -> Py.max lats = OK mxlat ->
  local_center lons lats
  = OK (mxlat / 2 + mnlat / 2, wrap180 (M / 2 + m / 2), M, m).
Proof.
  intros Hb Hmn Hmx. unfold local_center. rewrite Hb. cbn [bind].
  rewrite Hmx. cbn [bind]. rewrite Hmn. reflexivity.
Qed.

(** X6: The extent of [plot_cartopy] holds every point up to whole turns of
    longitude, whether or not the points straddle the antimeridian: for
    at least two points not all at one place the renderer returns, and
    each point, its longitude shifted by some multiple of 360, lies in
    the box handed to [set_extent]. *)
Theorem cartopy_extent_contains_points_mod_360 fig_w fig_h lons lats show
    M m mnlat mxlat :
  0 < fig_w -> 0 < fig_h ->
  (2 <= List.length lats)%nat ->
  lon_bounds lons = OK (M, m) ->
  Py.min lats = OK mnlat -> Py.max lats = OK mxlat ->
  m < M \/ mnlat < mxlat ->
  exists p,
    cartopy_local fig_w fig_h lons lats show = OK p /\
    Forall (fun pt =>
              exists k : Z,
                in_extent (cartopy_extent p)
                  (fst pt + 360 * inject_Z k, snd pt))
      (combine lons lats).
Proof.
  intros Hfw Hfh Hlen Hb Hmn Hmx Hnd.
  pose proof (lon_bounds_ordered _ _ _ Hb) as Hlon.
  pose proof (min_le_max _ _ _ Hmn Hmx) as Hlat.
  set (w0 := M - m + (2 # 10) * (M - m + (mxlat - mnlat))).
  set (h0 := mxlat - mnlat + (2 # 10) * (M - m + (mxlat - mnlat))).
  assert (cartopy_footprint lats M m = OK (w0, h0)) as Hf.
  { unfold cartopy_footprint.
    assert ((1 <? List.length lats)%nat = true) as -> by (apply Nat.ltb_lt; lia).
    rewrite Hmx, Hmn. reflexivity. }
  assert (0 < h0) as Hh0 by (unfold h0; destruct Hnd; lra).
  destruct (adjust_spec w0 h0 _ Hh0 (aspect_pos fig_w fig_h show Hfw Hfh))
    as (w' & h' & H1 & _ & _ & _ & Hw' & Hh' & _).
  unfold w0 in Hw'. unfold h0 in Hh'.
  exists (mkLocal (mxlat / 2 + mnlat / 2) (wrap180 (M / 2 + m / 2)) w' h').
  split.
  - unfold cartopy_local. rewrite (local_center_of_bounds _ _ _ _ _ _ Hb Hmn Hmx).
    cbn [bind]. rewrite Hf. cbn [bind]. rewrite H1. reflexivity.
  - pose proof (min_lower_bound _ _ Hmn) as Tlo.
    pose proof (max_upper_bound _ _ Hmx) as Thi.
    rewrite Forall_forall in *. intros [lon lat] Hin.
    pose proof (in_combine_l _ _ _ _ Hin) as Hl.
    pose proof (in_combine_r _ _ _ _ Hin) as Ht.
    destruct (lon_bounds_cover _ _ _ _ Hb Hl) as (k & K1 & K2).
    destruct (interval_in_box m M (lon + 360 * inject_Z k) (M / 2 + m / 2) w'
                K1 K2 (Qeq_refl _) ltac:(lra)) as [A B].
    destruct (interval_in_box mnlat mxlat lat (mxlat / 2 + mnlat / 2) h'
                (Tlo _ Ht) (Thi _ Ht) (Qeq_refl _) ltac:(lra)) as [C D].
    destruct (proj1 (wrap180_cases (M / 2 + m / 2))) as [E|E].
    + exists k. unfold in_extent, cartopy_extent. cbn [fst snd lon_0 lat_0 width height].
      rewrite E. repeat split; assumption.
    + exists (k - 1)%Z. unfold in_extent, cartopy_extent.
      cbn [fst snd lon_0 lat_0 width height]. rewrite E, inject_Z_sub.
      change (inject_Z 1) with 1. repeat split; try assumption; lra.
Qed.

Lemma cartopy_extent_contains_points_mod_360_witness :
  exists p,
    cartopy_local 8 6 [-179; 179] [0; 10] true = OK p /\
    Forall (fun pt =>
              exists k : Z,
                in_extent (cartopy_extent p)
                  (fst pt + 360 * inject_Z k, snd pt))
      [(-179, 0); (179, 10)].
Proof.
  apply (cartopy_extent_contains_points_mod_360 8 6 [-179; 179] [0; 10] true
           (Py.mod360 (-179)) (Py.mod360 179) 0 10
           ltac:(reflexivity) ltac:(reflexivity) ltac:(simpl; lia)
           eq_refl eq_refl eq_refl ltac:(left; reflexivity)).
Defined.

Lemma mid_between (M m lo hi : Q) :
  lo <= m -> m <= hi -> lo <= M -> M <= hi ->
  lo <= M / 2 + m / 2 /\ M / 2 + m / 2 <= hi.
Proof.
  intros H1 H2 H3 H4.
  assert (2 * (M / 2) == M) as E3 by field.
  assert (2 * (m / 2) == m) as E4 by field.
  revert E3 E4. generalize (M / 2) (m / 2). intros a b E3 E4. split; lra.
Qed.

Lemma mid_strictly_between (M m lo hi : Q) :
  lo < m -> m < hi -> lo < M -> M < hi ->
  lo < M / 2 + m / 2 /\ M / 2 + m / 2 < hi.
Proof.
  intros H1 H2 H3 H4.
  assert (2 * (M / 2) == M) as E3 by field.
  assert (2 * (m / 2) == m) as E4 by field.
  revert E3 E4. generalize (M / 2) (m / 2). intros a b E3 E4. split; lra.
Qed.

Lemma wrap180_valid (x : Q) :
  -180 <= x -> x <= 540 -> -180 <= wrap180 x /\ wrap180 x <= 180.
Proof.
  intros H1 H2. unfold wrap180. destruct (Py.Qltb 180 x) eqn:E.
  - apply Qltb_true in E. split; lra.
  - apply Qltb_false in E. split; lra.
Qed.

Lemma mod360_unique (a r : Q) (k : Z) :
  0 <= r -> r < 360 -> a == r + inject_Z k * 360 -> Py.mod360 a == r.
Proof.
  intros H0 H1 E. destruct (mod360_spec a) as (M0 & M1 & Ea).
  set (kf := Qfloor (a / 360)) in *.
  assert (inject_Z (k - kf) * 360 == Py.mod360 a - r) as Ed
      by (rewrite inject_Z_sub; lra).
  assert (inject_Z (-1) < inject_Z (k - kf)) as L
      by (change (inject_Z (-1)) with (-1); lra).
  assert (inject_Z (k - kf) < inject_Z 1) as U
      by (change (inject_Z 1) with 1; lra).
  rewrite <- Zlt_Qlt in L, U. assert (k - kf = 0)%Z as Z0 by lia.
  rewrite Z0 in Ed. change (inject_Z 0) with 0 in Ed. lra.
Qed.

Lemma lon_bounds_nonempty (lons : list Q) :
  lons <> [] -> exists M m, lon_bounds lons = OK (M, m).
Proof.
  intro Hne.
  destruct (min_nonempty lons Hne) as [mn Hmn].
  destruct (max_nonempty lons Hne) as [mx Hmx].
  assert (map Py.mod360 lons <> []) as Hne' by (destruct lons; [congruence | discriminate]).
  destruct (min_nonempty _ Hne') as [mn' Hmn'].
  destruct (max_nonempty _ Hne') as [mx' Hmx'].
  unfold lon_bounds. rewrite (straddles_spec _ _ _ Hmn Hmx).
  destruct (Py.Qltb mn (-150) && Py.Qltb 150 mx); cbn [bind].
  - rewrite Hmx', Hmn'. simpl. eauto.
  - rewrite Hmx, Hmn. simpl. eauto.
Qed.

(** X7: Valid coordinates give a valid centre: with every longitude in
    [[-180, 180]] and every latitude in [[-90, 90]] the centre is computed,
    its latitude lies between the smallest and the largest latitude, and
    its longitude lies in [[-180, 180]], on either branch of the
    antimeridian test. *)
Theorem local_center_valid (lons lats : list Q) :
  lons <> [] -> lats <> [] ->
  Forall (fun lon => -180 <= lon /\ lon <= 180) lons ->
  Forall (fun lat => -90 <= lat /\ lat <= 90) lats ->
  exists lat0 lon0 M m mnlat mxlat,
    local_center lons lats = OK (lat0, lon0, M, m) /\
    Py.min lats = OK mnlat /\ Py.max lats = OK mxlat /\
    mnlat <= lat0 /\ lat0 <= mxlat /\ -90 <= lat0 /\ lat0 <= 90 /\
    -180 <= lon0 /\ lon0 <= 180.
Proof.
  intros Hlons Hlats Flon Flat.
  destruct (lon_bounds_nonempty lons Hlons) as (M & m & Hb).
  destruct (min_nonempty lats Hlats) as [mnlat Hmn].
  destruct (max_nonempty lats Hlats) as [mxlat Hmx].
  exists (mxlat / 2 + mnlat / 2), (wrap180 (M / 2 + m / 2)), M, m, mnlat, mxlat.
  split; [apply local_center_of_bounds; assumption|].
  split; [assumption|]. split; [assumption|].
  pose proof (min_le_max _ _ _ Hmn Hmx) as Hlat.
  rewrite Forall_forall in Flon, Flat.
  destruct (Flat _ (min_in _ _ Hmn)) as [A1 _].
  destruct (Flat _ (max_in _ _ Hmx)) as [_ A2].
  destruct (mid_between mxlat mnlat mnlat mxlat
              ltac:(lra) Hlat Hlat ltac:(lra)) as [L1 L2].
  assert (-180 <= wrap180 (M / 2 + m / 2) /\ wrap180 (M / 2 + m / 2) <= 180)
    as Hlon.
  { destruct (lon_bounds_cases _ _ _ Hb) as [(_ & HM & Hm)|(_ & HM & Hm)].
    - destruct (Flon _ (min_in _ _ Hm)) as [B1 B2].
      destruct (Flon _ (max_in _ _ HM)) as [B3 B4].
      destruct (mid_between M m (-180) 180 B1 B2 B3 B4) as [C1 C2].
      apply wrap180_valid; lra.
    - apply max_in, in_map_iff in HM. destruct HM as (a & <- & _).
      apply min_in, in_map_iff in Hm. destruct Hm as (b & <- & _).
      destruct (mod360_spec a) as (P1 & P2 & _).
      destruct (mod360_spec b) as (P3 & P4 & _).
      destruct (mid_between (Py.mod360 a) (Py.mod360 b) 0 360
                  P3 ltac:(lra) P1 ltac:(lra)) as [C1 C2].
      apply wrap180_valid; lra. }
  destruct Hlon. repeat split; try assumption; lra.
Qed.

Lemma local_center_valid_witness :
  exists lat0 lon0 M m,
    local_center [-170; 175] [10; 20] = OK (lat0, lon0, M, m) /\
    -180 <= lon0 /\ lon0 <= 180.
Proof.
  destruct (local_center_valid [-170; 175] [10; 20]
              ltac:(discriminate) ltac:(discriminate)
              ltac:(repeat constructor; discriminate)
              ltac:(repeat constructor; discriminate))
    as (lat0 & lon0 & M & m & _ & _ & Hc & _ & _ & _ & _ & _ & _ & H1 & H2).
  exists lat0, lon0, M, m. repeat split; assumption.
Defined.

(** X8: A cluster around the antimeridian gets a centre around the
    antimeridian: when every longitude is within 30 degrees of it
    (below -150 or above 150) and both sides occur, the centre longitude is
    itself below -150 or above 150, not on the far side of the globe. *)
Theorem antimeridian_cluster_center (lons lats : list Q) :
  straddles lons = OK true -> lats <> [] ->
  Forall (fun lon => -180 <= lon /\ lon <= 180 /\ (lon < -150 \/ 150 < lon))
    lons ->
  exists lat0 lon0 M m,
    local_center lons lats = OK (lat0, lon0, M, m) /\
    150 < m /\ M < 210 /\
    (lon0 < -150 \/ 150 < lon0) /\ -180 < lon0 /\ lon0 <= 180.
Proof.
  intros Hs Hlats Fl.
  destruct (local_center_straddle lons lats Hs Hlats)
    as (lat0 & M & m & HM & Hm & Hc).
  exists lat0, (wrap180 (M / 2 + m / 2)), M, m. split; [exact Hc|].
  assert (forall v, In v (map Py.mod360 lons) -> 150 < v /\ v < 210) as Hr.
  { intros v Hv. apply in_map_iff in Hv. destruct Hv as (a & <- & Ha).
    rewrite Forall_forall in Fl. destruct (Fl _ Ha) as (A1 & A2 & [A3|A3]).
    - rewrite (mod360_unique a (a + 360) (-1)); [split; lra | lra | lra |].
      change (inject_Z (-1)) with (-1). ring.
    - destruct (Qlt_le_dec a 180) as [Hlt|Hge].
      + rewrite (mod360_unique a a 0); [split; lra | lra | lra |].
        change (inject_Z 0) with 0. ring.
      + assert (a == 180) as E by lra.
        rewrite (mod360_unique a 180 0); [split; lra | lra | lra |].
        change (inject_Z 0) with 0. rewrite E. ring. }
  destruct (Hr _ (min_in _ _ Hm)) as [B1 B2].
  destruct (Hr _ (max_in _ _ HM)) as [B3 B4].
  split; [assumption|]. split; [assumption|].
  destruct (mid_strictly_between M m 150 210 B1 B2 B3 B4) as [C1 C2].
  unfold wrap180. destruct (Py.Qltb 180 (M / 2 + m / 2)) eqn:E.
  - apply Qltb_true in E. split; [left; lra | split; lra].
  - apply Qltb_false in E. split; [right; lra | split; lra].
Qed.

Lemma antimeridian_cluster_center_witness :
  exists lat0 lon0 M m,
    local_center [-170; 175; 160] [10; 20] = OK (lat0, lon0, M, m) /\
    (lon0 < -150 \/ 150 < lon0).
Proof.
  destruct (antimeridian_cluster_center [-170; 175; 160] [10; 20]
              eq_refl ltac:(discriminate)
              ltac:(repeat constructor; try discriminate;
                    first [left; reflexivity | right; reflexivity]))
    as (lat0 & lon0 & M & m & Hc & _ & _ & H & _).
  exists lat0, lon0, M, m. split; assumption.
Defined.

(** ** Labels *)

Lemma zip4_length {A B C D : Type} (la : list A) (lb : list B) (lc : list C)
    (ld : list D) :
  (List.length (zip4 la lb lc ld) <= List.length la)%nat /\
  (List.length (zip4 la lb lc ld) <= List.length lb)%nat.
Proof.
  revert lb lc ld. induction la as [|a la IH]; intros lb lc ld; simpl.
  - split; lia.
  - destruct lb as [|b lb]; [simpl; split; lia|].
    destruct lc as [|c lc]; [simpl; split; lia|].
    destruct ld as [|d ld]; [simpl; split; lia|].
    simpl. destruct (IH lb lc ld). split; lia.
Qed.

Lemma zip4_names {A B C D : Type} (la : list A) (lb : list B) (lc : list C)
    (ld : list D) :
  List.length lb = List.length la -> List.length lc = List.length la ->
  List.length ld = List.length la ->
  map (fun t => let '(a, _, _, _) := t in a) (zip4 la lb lc ld) = la.
Proof.
  revert lb lc ld. induction la as [|a la IH]; intros lb lc ld H1 H2 H3;
    [reflexivity|].
  destruct lb as [|b lb]; [discriminate|].
  destruct lc as [|c lc]; [discriminate|].
  destruct ld as [|d ld]; [discriminate|].
  simpl in *. f_equal. apply IH; lia.
Qed.

Lemma zip4_in_first {A B C D : Type} (la : list A) (lb : list B) (lc : list C)
    (ld : list D) a b c d :
  In (a, b, c, d) (zip4 la lb lc ld) -> In a la.
Proof.
  revert lb lc ld. induction la as [|a' la IH]; intros lb lc ld; simpl;
    [tauto|].
  destruct lb as [|b' lb]; [simpl; tauto|].
  destruct lc as [|c' lc]; [simpl; tauto|].
  destruct ld as [|d' ld]; [simpl; tauto|].
  simpl. intros [H|H]; [left; congruence | right; eapply IH; eassumption].
Qed.

(** X12: What [plot_basemap] labels: given one projected coordinate pair per
    point and an iterable colour argument it returns; a text is never
    placed beyond the off-map threshold when there are 2 to 99 points;
    each text carries one of the given labels and there are never more
    texts than labels or points; with 100 points or more, or none, no
    label is drawn at all. *)
Theorem basemap_labels_limits labels lons x y color cs :
  items color = OK cs ->
  List.length x = List.length lons -> List.length y = List.length lons ->
  exists texts,
    basemap_labels labels lons x y color = OK texts /\
    (List.length texts <= List.length (truthy labels))%nat /\
    (List.length texts <= List.length lons)%nat /\
    Forall (fun t => In (snd t) (truthy labels)) texts /\
    ((1 < List.length lons)%nat ->
     Forall (fun t => fst (fst t) <= inject_Z (10 ^ 25)) texts) /\
    ((100 <= List.length lons)%nat \/ List.length lons = 0%nat -> texts = []).
Proof.
  intros Hi Hx Hy. unfold basemap_labels.
  destruct (truthy labels) as [|label0 rest] eqn:El.
  - exists []. split; [reflexivity|]. simpl.
    repeat split; try lia; try constructor; auto.
  - destruct ((List.length lons <? 100)%nat && (1 <? List.length lons)%nat)
      eqn:E.
    + apply andb_true_iff in E. destruct E as [E1 E2].
      apply Nat.ltb_lt in E1. apply Nat.ltb_lt in E2.
      rewrite Hi. cbn [bind]. eexists. split; [reflexivity|].
      set (z := zip4 (label0 :: rest) x y cs).
      pose proof (zip4_length (label0 :: rest) x y cs) as [L1 L2]. fold z in L1, L2.
      pose proof (filter_length_le
                    (fun t : string * Q * Q * colorval =>
                       let '(_, xpt, _, _) := t in
                       negb (Py.Qltb (inject_Z (10 ^ 25)) xpt)) z) as L3.
      rewrite length_map.
      split; [lia|]. split; [lia|]. split; [|split].
      * apply Forall_forall. intros t Ht. apply in_map_iff in Ht.
        destruct Ht as ([[[name xpt] ypt] c] & <- & Ht).
        apply filter_In in Ht. destruct Ht as [Ht _]. cbn [snd].
        unfold z in Ht. eapply zip4_in_first. exact Ht.
      * intros _. apply Forall_forall. intros t Ht. apply in_map_iff in Ht.
        destruct Ht as ([[[name xpt] ypt] c] & <- & Ht).
        apply filter_In in Ht. destruct Ht as [_ Ht]. cbn [fst snd].
        apply negb_true_iff, Qltb_false in Ht. exact Ht.
      * intros [H|H]; lia.
    + apply andb_false_iff in E.
      destruct (List.length lons =? 1)%nat eqn:E1.
      * apply Nat.eqb_eq in E1.
        destruct x as [|x0 x']; [simpl in Hx; lia|].
        destruct y as [|y0 y']; [simpl in Hy; lia|].
        exists [(x0, y0, label0)]. split; [reflexivity|]. simpl.
        split; [lia|]. split; [lia|]. split; [|split].
        -- constructor; [left; reflexivity | constructor].
        -- intro H. lia.
        -- intros [H|H]; lia.
      * exists []. split; [reflexivity|]. simpl.
        repeat split; try lia; try constructor; auto.
Qed.

Lemma basemap_labels_limits_witness :
  exists texts,
    basemap_labels (Some ["A"; "B"]%string) [10; 20]
      [5; inject_Z (10 ^ 30)] [7; inject_Z (10 ^ 30)] (CSeq [Num 1; Num 2])
    = OK texts /\ (List.length texts <= 2)%nat.
Proof.
  destruct (basemap_labels_limits (Some ["A"; "B"]%string) [10; 20]
              [5; inject_Z (10 ^ 30)] [7; inject_Z (10 ^ 30)]
              (CSeq [Num 1; Num 2]) [Num 1; Num 2] eq_refl eq_refl eq_refl)
    as (texts & H & _ & H2 & _).
  exists texts. split; [exact H | exact H2].
Defined.

(** X13: The two renderers part ways at 100 points: with one label, one
    latitude and one colour per point, [plot_cartopy] labels every point
    in order, and [plot_basemap] labels none once there are 100 points or
    more. *)
Theorem labels_differ_from_100_points names lons lats x y cs :
  (100 <= List.length lons)%nat ->
  List.length names = List.length lons ->
  List.length lats = List.length lons ->
  List.length cs = List.length lons ->
  basemap_labels (Some names) lons x y (CSeq cs) = OK [] /\
  exists texts,
    cartopy_labels (Some names) lons lats (CSeq cs) = OK texts /\
    map snd texts = names /\
    List.length texts = List.length lons.
Proof.
  intros Hn H1 H2 H3. split.
  - unfold basemap_labels. simpl truthy.
    destruct names as [|n0 names]; [reflexivity|].
    assert ((List.length lons <? 100)%nat = false) as -> by (apply Nat.ltb_ge; lia).
    simpl. assert ((List.length lons =? 1)%nat = false) as ->
        by (apply Nat.eqb_neq; lia).
    reflexivity.
  - unfold cartopy_labels. simpl truthy.
    destruct names as [|n0 names]; [simpl in H1; lia|].
    assert ((0 <? List.length lons)%nat = true) as -> by (apply Nat.ltb_lt; lia).
    cbn [items bind]. eexists. split; [reflexivity|].
    assert (map snd
              (map (fun t : string * Q * Q * colorval =>
                      let '(name, xpt, ypt, _) := t in (xpt, ypt, name))
                 (zip4 (n0 :: names) lons lats cs))
            = n0 :: names) as E.
    { rewrite map_map. rewrite <- (zip4_names (n0 :: names) lons lats cs) at 2
        by lia.
      apply map_ext. intros [[[a b] c] d]. reflexivity. }
    split; [exact E|].
    rewrite <- H1. rewrite <- E at 2. rewrite !length_map. reflexivity.
Qed.

Lemma labels_differ_from_100_points_witness :
  exists texts,
    cartopy_labels (Some (repeat "s"%string 100)) (repeat 1 100)
      (repeat 2 100) (CSeq (repeat (Num 3) 100)) = OK texts /\
    List.length texts = 100%nat.
Proof.
  destruct (labels_differ_from_100_points (repeat "s"%string 100)
              (repeat 1 100) (repeat 2 100) [] [] (repeat (Num 3) 100)
              ltac:(rewrite repeat_length; lia)
              ltac:(rewrite !repeat_length; reflexivity)
              ltac:(rewrite !repeat_length; reflexivity)
              ltac:(rewrite !repeat_length; reflexivity))
    as (_ & texts & H & _ & L).
  exists texts. split; [exact H|]. rewrite L. apply repeat_length.
Defined.

(** ** Projection keyword arguments *)

Lemma kw_get_set_same d k v : kw_get (kw_set d k v) k = Some v.
Proof.
  induction d as [|[k' v'] d IH]; simpl.
  - rewrite String.eqb_refl. reflexivity.
  - destruct (String.eqb k k') eqn:E; simpl; rewrite E; [reflexivity | exact IH].
Qed.

Lemma kw_get_set_other d k k' v : k' <> k -> kw_get (kw_set d k v) k' = kw_get d k'.
Proof.
  intro Hne. induction d as [|[k0 v0] d IH]; simpl.
  - apply String.eqb_neq in Hne. rewrite Hne. reflexivity.
  - destruct (String.eqb k k0) eqn:E; simpl.
    + apply String.eqb_eq in E. subst k0.
      apply String.eqb_neq in Hne. rewrite Hne. reflexivity.
    + destruct (String.eqb k' k0); [reflexivity | exact IH].
Qed.

Lemma kw_get_fill_auto d k v k' :
  kw_get (fill_auto d k v) k' =
  if String.eqb k' k then
    match kw_get d k with
    | Some old => if is_auto old then Some v else Some old
    | None => None
    end
  else kw_get d k'.
Proof.
  unfold fill_auto. destruct (String.eqb k' k) eqn:E.
  - apply String.eqb_eq in E. subst k'.
    destruct (kw_get d k) as [old|] eqn:G; [|exact G].
    destruct (is_auto old); [apply kw_get_set_same | exact G].
  - apply String.eqb_neq in E.
    destruct (kw_get d k) as [old|]; [|reflexivity].
    destruct (is_auto old); [apply kw_get_set_other; exact E | reflexivity].
Qed.

Lemma np_mean_not_auto l : is_auto (np_mean l) = false.
Proof. destruct l; reflexivity. Qed.

(** X14: A projection class is built with the caller's keyword arguments,
    except that ['auto'] under one of the four centre and pole keys is
    replaced by the mean of the longitudes or latitudes: no key is added,
    no other value is touched, ['auto'] under any other key stays, and no
    ['auto'] is left under the four keys. *)
Theorem user_class_kwargs fig_w fig_h repr proj_kwargs lons lats show :
  exists passed,
    cartopy_proj_kwargs fig_w fig_h (PType repr) proj_kwargs lons lats show
    = OK passed /\
    (forall key,
        kw_get (truthy proj_kwargs) key = None -> kw_get passed key = None) /\
    (forall key v,
        kw_get (truthy proj_kwargs) key = Some v ->
        is_auto v = false \/ ~ In key auto_keys ->
        kw_get passed key = Some v) /\
    (forall key,
        kw_get (truthy proj_kwargs) key = Some KAuto ->
        (key = "central_longitude"%string \/ key = "pole_longitude"%string ->
         kw_get passed key = Some (np_mean lons)) /\
        (key = "central_latitude"%string \/ key = "pole_latitude"%string ->
         kw_get passed key = Some (np_mean lats))) /\
    (forall key, In key auto_keys -> kw_get passed key <> Some KAuto).
Proof.
  eexists. split; [reflexivity|].
  set (kw := truthy proj_kwargs).
  assert (forall key,
            kw_get
              (fill_auto
                 (fill_auto
                    (fill_auto
                       (fill_auto kw "central_longitude" (np_mean lons))
                       "central_latitude" (np_mean lats))
                    "pole_longitude" (np_mean lons))
                 "pole_latitude" (np_mean lats)) key
            = match kw_get kw key with
              | Some old =>
                  if is_auto old then
                    if String.eqb key "pole_latitude" then Some (np_mean lats)
                    else if String.eqb key "pole_longitude" then Some (np_mean lons)
                    else if String.eqb key "central_latitude" then Some (np_mean lats)
                    else if String.eqb key "central_longitude" then Some (np_mean lons)
                    else Some old
                  else Some old
              | None => None
              end) as Hget.
  { intro key. rewrite !kw_get_fill_auto.
    destruct (String.eqb key "pole_latitude") eqn:E1.
    { apply String.eqb_eq in E1. subst key. simpl.
      destruct (kw_get kw "pole_latitude") as [old|]; [|reflexivity].
      destruct (is_auto old); reflexivity. }
    destruct (String.eqb key "pole_longitude") eqn:E2.
    { apply String.eqb_eq in E2. subst key. simpl.
      destruct (kw_get kw "pole_longitude") as [old|]; [|reflexivity].
      destruct (is_auto old); reflexivity. }
    destruct (String.eqb key "central_latitude") eqn:E3.
    { apply String.eqb_eq in E3. subst key. simpl.
      destruct (kw_get kw "central_latitude") as [old|]; [|reflexivity].
      destruct (is_auto old); reflexivity. }
    destruct (String.eqb key "central_longitude") eqn:E4.
    { apply String.eqb_eq in E4. subst key.
      destruct (kw_get kw "central_longitude") as [old|]; [|reflexivity].
      destruct (is_auto old); reflexivity. }
    destruct (kw_get kw key) as [old|]; [|reflexivity].
    destruct (is_auto old); reflexivity. }
  split; [|split; [|split]].
  - intros key H. cbn [proj_is cartopy_proj_kwargs]. fold kw.
    rewrite Hget, H. reflexivity.
  - intros key v H Hor. cbn [proj_is]. fold kw. rewrite Hget, H.
    destruct (is_auto v) eqn:Ea; [|reflexivity].
    destruct Hor as [Hf|Hn]; [discriminate|].
    destruct (String.eqb key "pole_latitude") eqn:E1;
      [apply String.eqb_eq in E1; exfalso; apply Hn; subst; simpl; tauto|].
    destruct (String.eqb key "pole_longitude") eqn:E2;
      [apply String.eqb_eq in E2; exfalso; apply Hn; subst; simpl; tauto|].
    destruct (String.eqb key "central_latitude") eqn:E3;
      [apply String.eqb_eq in E3; exfalso; apply Hn; subst; simpl; tauto|].
    destruct (String.eqb key "central_longitude") eqn:E4;
      [apply String.eqb_eq in E4; exfalso; apply Hn; subst; simpl; tauto|].
    reflexivity.
  - intros key H. cbn [proj_is]. fold kw. split.
    + intros [->| ->]; rewrite Hget, H; reflexivity.
    + intros [->| ->]; rewrite Hget, H; reflexivity.
  - intros key Hin. cbn [proj_is]. fold kw. rewrite Hget.
    destruct (kw_get kw key) as [old|]; [|discriminate].
    destruct (is_auto old) eqn:Ea.
    + simpl in Hin.
      destruct Hin as [<-|[<-|[<-|[<-|[]]]]]; simpl;
        intro H; injection H as H;
        pose proof (np_mean_not_auto lons) as A1;
        pose proof (np_mean_not_auto lats) as A2;
        rewrite H in *; discriminate.
    + intro H. injection H as ->. discriminate.
Qed.

Lemma user_class_kwargs_witness :
  exists passed,
    cartopy_proj_kwargs 8 6 (PType "Mollweide")
      (Some [("central_longitude", KAuto); ("globe", KOther "None")]%string)
      [10; 30] [40; 50] true = OK passed /\
    kw_get passed "globe" = Some (KOther "None").
Proof.
  destruct (user_class_kwargs 8 6 "Mollweide"
              (Some [("central_longitude", KAuto); ("globe", KOther "None")]%string)
              [10; 30] [40; 50] true)
    as (passed & H & _ & Hk & _).
  exists passed. split; [exact H|].
  apply Hk; [reflexivity | left; reflexivity].
Defined.





(** X16: The keyword dict is the caller's own object unless it was [None] or
    empty: after an ['ortho'] or ['local'] call with a dict that had
    entries, the caller's dict holds this call's [central_latitude] and
    [central_longitude]; a [None] or empty argument is left as it was,
    and ['cyl'] writes nothing. *)
Theorem kwargs_written_to_callers_dict fig_w fig_h projection proj_kwargs
    lons lats show passed :
  cartopy_proj_kwargs fig_w fig_h projection proj_kwargs lons lats show
  = OK passed ->
  (proj_kwargs = None \/ proj_kwargs = Some [] ->
   caller_kwargs_after proj_kwargs passed = proj_kwargs) /\
  (proj_is projection "cyl" = true ->
   caller_kwargs_after proj_kwargs passed = proj_kwargs) /\
  (forall e d, proj_kwargs = Some (e :: d) ->
     caller_kwargs_after proj_kwargs passed = Some passed /\
     (proj_is projection "ortho" = true ->
      exists after,
        caller_kwargs_after proj_kwargs passed = Some after /\
        kw_get after "central_latitude" = Some (np_mean lats) /\
        kw_get after "central_longitude" = Some (np_mean lons)) /\
     (proj_is projection "local" = true ->
      exists after p,
        cartopy_local fig_w fig_h lons lats show = OK p /\
        caller_kwargs_after proj_kwargs passed = Some after /\
        kw_get after "central_latitude" = Some (KNum (lat_0 p)) /\
        kw_get after "central_longitude" = Some (KNum (lon_0 p)))).
Proof.
  intro H. split; [|split].
  - intros [->| ->]; reflexivity.
  - intro Hc. unfold cartopy_proj_kwargs in H. rewrite Hc in H.
    injection H as <-. destruct proj_kwargs as [[|e d]|]; reflexivity.
  - intros e d ->. split; [reflexivity|].
    unfold cartopy_proj_kwargs in H.
    remember (truthy (Some (e :: d))) as kw eqn:Ekw. clear Ekw.
    split.
    + intro Ho. exists passed. split; [reflexivity|].
      destruct (proj_is projection "cyl") eqn:Ec.
      { destruct projection as [s|r]; [|discriminate].
        simpl in Ec, Ho. apply String.eqb_eq in Ec, Ho. congruence. }
      rewrite Ho in H. injection H as <-.
      split; [rewrite kw_get_set_other by discriminate|];
        apply kw_get_set_same.
    + intro Hl.
      destruct (proj_is projection "cyl") eqn:Ec.
      { destruct projection as [s|r]; [|discriminate].
        simpl in Ec, Hl. apply String.eqb_eq in Ec, Hl. congruence. }
      destruct (proj_is projection "ortho") eqn:Eo.
      { destruct projection as [s|r]; [|discriminate].
        simpl in Eo, Hl. apply String.eqb_eq in Eo, Hl. congruence. }
      rewrite Hl in H. inv_bind H. injection H as <-.
      eexists. exists v.
      split; [exact Hv|]. split; [reflexivity|].
      split; [rewrite kw_get_set_other by discriminate|];
        apply kw_get_set_same.
Qed.

Lemma kwargs_written_to_callers_dict_witness :
  exists after,
    caller_kwargs_after (Some [("central_longitude", KNum 5)]%string)
      (kw_set (kw_set [("central_longitude", KNum 5)]%string
                 "central_latitude" (np_mean [10; 20]))
         "central_longitude" (np_mean [-179; 179]))
    = Some after /\
    kw_get after "central_longitude" = Some (np_mean [-179; 179]).
Proof.
  destruct (kwargs_written_to_callers_dict 8 6 (PStr "ortho")
              (Some [("central_longitude", KNum 5)]%string)
              [-179; 179] [10; 20] true _ eq_refl)
    as (_ & _ & H).
  destruct (H _ _ eq_refl) as (_ & Ho & _).
  destruct (Ho eq_refl) as (after & Ha & _ & Hk).
  exists after. split; [exact Ha | exact Hk].
Defined.

(** ** More on [linspace2] and on degenerate input *)

(** X4: The spacing is a round number: 1 to 6 halves of a power of ten, that
    is 0.5, 1, 1.5, 2, 2.5 or 3 times [10^e]. *)
Theorem linspace2_delta_is_nice (val1 val2 : Q) (N : Z) :
  val1 < val2 -> (0 < N)%Z ->
  exists d m e,
    linspace2_delta val1 val2 N = OK d /\
    (1 <= m <= 6)%Z /\ d == inject_Z m * 10 ^ e / 2.
Proof.
  intros Hv HN.
  destruct (linspace2_delta_spec val1 val2 N Hv HN)
    as (d & m & u & Hd & (e & Eu) & _ & Ed & Hm & _).
  exists d, m, e. split; [exact Hd|]. split; [exact Hm|].
  rewrite Ed, Eu. reflexivity.
Qed.

Lemma linspace2_delta_is_nice_witness :
  exists d m e,
    linspace2_delta 0 (1 # 3) 7 = OK d /\
    (1 <= m <= 6)%Z /\ d == inject_Z m * 10 ^ e / 2.
Proof.
  apply (linspace2_delta_is_nice 0 (1 # 3) 7); reflexivity.
Defined.

Lemma lon_bounds_coincident (lons : list Q) (mn mx : Q) :
  Py.min lons = OK mn -> Py.max lons = OK mx -> mn == mx ->
  lon_bounds lons = OK (mx, mn).
Proof.
  intros Hmn Hmx E. unfold lon_bounds. rewrite (straddles_spec _ _ _ Hmn Hmx).
  assert (Py.Qltb mn (-150) && Py.Qltb 150 mx = false) as ->.
  { destruct (Py.Qltb mn (-150)) eqn:E1; [|reflexivity].
    destruct (Py.Qltb 150 mx) eqn:E2; [|reflexivity].
    apply Qltb_true in E1. apply Qltb_true in E2. lra. }
  cbn [bind]. rewrite Hmx. cbn [bind]. rewrite Hmn. reflexivity.
Qed.

(** X9: Two or more points at one place: [plot_cartopy] stops with
    [ZeroDivisionError] at the aspect test, while [plot_basemap], whose
    footprint is in numpy floats, goes on with a box of zero width and
    zero height. *)
Theorem coincident_points_degenerate np_pi np_cos fig_w fig_h lons lats show
    mnlon mxlon mnlat mxlat :
  (2 <= List.length lats)%nat ->
  Py.min lons = OK mnlon -> Py.max lons = OK mxlon -> mnlon == mxlon ->
  Py.min lats = OK mnlat -> Py.max lats = OK mxlat -> mnlat == mxlat ->
  cartopy_local fig_w fig_h lons lats show = Raise ZeroDivisionError /\
  exists p,
    basemap_local np_pi np_cos fig_w fig_h lons lats show = OK p /\
    width p == 0 /\ height p == 0.
Proof.
  intros Hlen Hmn Hmx Elon Hmnl Hmxl Elat.
  pose proof (lon_bounds_coincident _ _ _ Hmn Hmx Elon) as Hb.
  pose proof (local_center_of_bounds _ _ _ _ _ _ Hb Hmnl Hmxl) as Hc.
  assert ((1 <? List.length lats)%nat = true) as Hl by (apply Nat.ltb_lt; lia).
  assert (mxlon - mnlon == 0) as Zlon by lra.
  assert (mxlat - mnlat == 0) as Zlat by lra.
  split.
  - unfold cartopy_local. rewrite Hc. cbn [bind].
    unfold cartopy_footprint. rewrite Hl, Hmxl, Hmnl. cbn [bind].
    unfold cartopy_adjust, Py.div.
    assert (Qeq_bool (mxlat - mnlat
                      + (2 # 10) * (mxlon - mnlon + (mxlat - mnlat))) 0 = true)
      as -> by (apply Qeq_bool_iff; lra).
    reflexivity.
  - unfold basemap_local. rewrite Hc. cbn [bind].
    unfold basemap_footprint. rewrite Hl, Hmxl, Hmnl. cbn [bind].
    set (dlat := deg2m_lat np_pi).
    set (dlon := deg2m_lon np_pi np_cos (mxlat / 2 + mnlat / 2)).
    set (h0 := (mxlat - mnlat) * dlat).
    set (w0 := (mxlon - mnlon) * dlon).
    assert (h0 == 0) as Eh by (unfold h0; rewrite Zlat; ring).
    assert (w0 == 0) as Ew by (unfold w0; rewrite Zlon; ring).
    unfold basemap_adjust.
    assert (Qeq_bool (h0 + (2 # 10) * (w0 + h0)) 0 = true) as ->
        by (apply Qeq_bool_iff; lra).
    assert (Py.Qltb (w0 + (2 # 10) * (w0 + h0)) 0 = false) as ->
        by (apply Qltb_false; lra).
    eexists. split; [reflexivity|]. cbn [width height fst snd].
    split; [lra|].
    assert (w0 + (2 # 10) * (w0 + h0) == 0) as -> by lra.
    unfold Qdiv. ring.
Qed.

Lemma coincident_points_degenerate_witness :
  cartopy_local 8 6 [10; 10; 10] [20; 20; 20] false = Raise ZeroDivisionError.
Proof.
  apply (coincident_points_degenerate pi_355_113 cos_taylor4 8 6
           [10; 10; 10] [20; 20; 20] false 10 10 20 20
           ltac:(simpl; lia) eq_refl eq_refl ltac:(reflexivity)
           eq_refl eq_refl ltac:(reflexivity)).
Defined.

(** X17: Empty input is met by the builtins before the module's own checks:
    an empty colour sequence raises the [ValueError] of [min] whatever
    the projection, supported or not; with colours in place, the
    ['local'] projection of no longitudes raises the same error, and of
    longitudes without latitudes the [ValueError] of [max]. *)
Theorem empty_input_errors date2num np_pi np_cos fig_w fig_h method :
  method = "basemap"%string \/ method = "cartopy"%string ->
  (forall lons lats projection colorbar,
      plot_map date2num np_pi np_cos fig_w fig_h method
        lons lats (CSeq []) projection colorbar
      = Raise (ValueError "min() arg is an empty sequence")) /\
  (forall lats color colorbar ca,
      color_axis date2num color = OK ca ->
      plot_map date2num np_pi np_cos fig_w fig_h method
        [] lats color (PStr "local") colorbar
      = Raise (ValueError "min() arg is an empty sequence")) /\
  (forall lon lons color colorbar ca,
      color_axis date2num color = OK ca ->
      plot_map date2num np_pi np_cos fig_w fig_h method
        (lon :: lons) [] color (PStr "local") colorbar
      = Raise (ValueError "max() arg is an empty sequence")).
Proof.
  intros Hm. split; [|split].
  - intros. destruct Hm as [->| ->]; reflexivity.
  - intros lats color colorbar ca Hca.
    destruct ca as [[[cmin cmax] flag] color'].
    destruct Hm as [->| ->]; cbn [plot_map String.eqb Ascii.eqb Bool.eqb].
    + unfold plot_basemap. rewrite Hca. reflexivity.
    + unfold plot_cartopy. rewrite Hca. reflexivity.
  - intros lon lons color colorbar ca Hca.
    destruct ca as [[[cmin cmax] flag] color'].
    assert (exists M m, lon_bounds (lon :: lons) = OK (M, m)) as (M & m & Hb)
        by (apply lon_bounds_nonempty; discriminate).
    assert (local_center (lon :: lons) []
            = Raise (ValueError "max() arg is an empty sequence")) as Hc
        by (unfold local_center; rewrite Hb; reflexivity).
    destruct Hm as [->| ->]; cbn [plot_map String.eqb Ascii.eqb Bool.eqb].
    + unfold plot_basemap. rewrite Hca. cbn [bind].
      unfold basemap_projection. cbn [proj_is String.eqb Ascii.eqb Bool.eqb].
      unfold basemap_local. rewrite Hc. reflexivity.
    + unfold plot_cartopy. rewrite Hca. cbn [bind].
      unfold cartopy_projection. cbn [proj_is String.eqb Ascii.eqb Bool.eqb].
      unfold cartopy_local. rewrite Hc. reflexivity.
Qed.

Lemma empty_input_errors_witness :
  plot_map mpl_date2num pi_355_113 cos_taylor4 8 6 "cartopy"
    [10; 20] [30; 40] (CSeq []) (PStr "merc") None
  = Raise (ValueError "min() arg is an empty sequence").
Proof.
  apply (proj1 (empty_input_errors mpl_date2num pi_355_113 cos_taylor4 8 6
                  "cartopy" (or_intror eq_refl))).
Defined.
